(** * RelatorioCadastros: header resolution, cell coercion, row mapping and
      report aggregates

    A shallow embedding of the pure core of [src/pages/RelatorioCadastros.tsx]:
    [normalizeHeader], [headerMap], [mapHeaderToKey], [parseDate],
    [splitPendencias], the row mapper inside [handleFile] and the aggregates
    [pendenciasCount] and [topCities].

    Conventions of the embedding.
    - A JavaScript string is the list of its UTF-16 code units.
    - A JavaScript number is [NaN], an infinity, or a finite binary64 value
      kept as the exact rational it denotes; every arithmetic result is
      rounded to binary64 (nearest, ties to even) by [round64].  The two
      zeros are identified: no operation of this program tells them apart.
    - A time value (milliseconds since the epoch) is an integer.
    - What ECMAScript leaves to the host (time zone, [Date.parse] on
      non-ISO text, Unicode case and normalisation tables, the rendering of
      non-integral numbers and of dates) is a field of the record [Host]. *)

From Stdlib Require Import String Ascii.
From Stdlib Require Import List ZArith NArith QArith Qround Lia Bool Sorted.
From Stdlib Require Import Permutation DecimalN.
Import ListNotations.

Local Open Scope Z_scope.
Local Open Scope list_scope.

(* ------------------------------------------------------------------ *)
(** ** Strings *)

(** A string is its sequence of UTF-16 code units. *)
Definition jsstring : Type := list N.

Module Str.

(** ASCII literal. *)
Definition lit (s : string) : jsstring :=
  map N_of_ascii (list_ascii_of_string s).

Definition eqb (a b : jsstring) : bool :=
  if list_eq_dec N.eq_dec a b then true else false.

(** ECMAScript [WhiteSpace] and [LineTerminator] code points: the set
    removed by [String.prototype.trim] and skipped by [Number(string)]. *)
Definition is_space (c : N) : bool :=
  ((c =? 9) || (c =? 10) || (c =? 11) || (c =? 12) || (c =? 13) || (c =? 32)
   || (c =? 160) || (c =? 5760) || ((8192 <=? c) && (c <=? 8202))
   || (c =? 8232) || (c =? 8233) || (c =? 8239) || (c =? 8287)
   || (c =? 12288) || (c =? 65279))%N.

Fixpoint drop_while (p : N -> bool) (s : jsstring) : jsstring :=
  match s with
  | [] => []
  | c :: s' => if p c then drop_while p s' else s
  end.

(** [s.trim()] *)
Definition trim (s : jsstring) : jsstring :=
  rev (drop_while is_space (rev (drop_while is_space s))).

Fixpoint starts_with (k s : jsstring) : bool :=
  match k, s with
  | [], _ => true
  | _ :: _, [] => false
  | a :: k', b :: s' => (a =? b)%N && starts_with k' s'
  end.

(** [s.includes(k)] *)
Fixpoint includes (s k : jsstring) : bool :=
  starts_with k s ||
  match s with
  | [] => false
  | _ :: s' => includes s' k
  end.

(** [s.split(sep)] for a one-unit separator: every occurrence cuts, so
    adjacent separators leave empty pieces and the empty string splits
    to one empty piece. *)
Fixpoint split_on (sep : N) (s : jsstring) : list jsstring :=
  match s with
  | [] => [[]]
  | c :: s' =>
      if (c =? sep)%N then [] :: split_on sep s'
      else match split_on sep s' with
           | piece :: rest => (c :: piece) :: rest
           | [] => [[c]]
           end
  end.

(** [s.split(/[...]+/)] for a character class [p]: a maximal run of class
    members is one cut.  [in_run] records that the previous unit was a
    member, so a further member extends the same cut. *)
Fixpoint split_runs_from (p : N -> bool) (in_run : bool) (s : jsstring)
  : list jsstring :=
  match s with
  | [] => [[]]
  | c :: s' =>
      if p c then
        if in_run then split_runs_from p true s'
        else [] :: split_runs_from p true s'
      else match split_runs_from p false s' with
           | piece :: rest => (c :: piece) :: rest
           | [] => [[c]]
           end
  end.

Definition split_runs (p : N -> bool) (s : jsstring) : list jsstring :=
  split_runs_from p false s.

(** [s.replace(/c/g, " ")] for a single code unit [c]. *)
Definition replace_unit (c : N) (s : jsstring) : jsstring :=
  map (fun x => if (x =? c)%N then 32%N else x) s.

Definition is_digit (c : N) : bool := ((48 <=? c) && (c <=? 57))%N.

(** [s.replace(/\D+/g, empty)]: every non-digit is removed. *)
Definition strip_non_digits (s : jsstring) : jsstring := filter is_digit s.

Fixpoint span (p : N -> bool) (s : jsstring) : jsstring * jsstring :=
  match s with
  | [] => ([], [])
  | c :: s' =>
      if p c then let (a, b) := span p s' in (c :: a, b) else ([], s)
  end.

End Str.

Notation "'js' s" :=
  (Str.lit s%string) (at level 9, s at level 0, only parsing).

(* ------------------------------------------------------------------ *)
(** ** Numbers *)

Inductive JSNum : Type :=
| NaN
| PInf
| NInf
| Fin (q : Q).

Module Num.

Definition of_Z (z : Z) : JSNum := Fin (inject_Z z).

Definition isNaN (x : JSNum) : bool :=
  match x with NaN => true | _ => false end.

(** [x < y] as JavaScript evaluates it: false as soon as one side is NaN. *)
Definition ltb (x y : JSNum) : bool :=
  match x, y with
  | NaN, _ | _, NaN => false
  | PInf, _ => false
  | _, NInf => false
  | NInf, _ => true
  | _, PInf => true
  | Fin a, Fin b => match (a ?= b)%Q with Lt => true | _ => false end
  end.

Definition gtb (x y : JSNum) : bool := ltb y x.

(** The exponent of the unit in the last place of the binary64 value
    nearest to the positive rational [n/d]: [e] is [floor (log2 (n/d))],
    the significand has 53 bits, and below 2^-1022 the spacing stays
    2^-1074 (gradual underflow). *)
Definition ulp_exponent (n d : positive) : Z :=
  let e0 := Z.log2 (Zpos n) - Z.log2 (Zpos d) in
  let below :=
    if 0 <=? e0 then Zpos n <? Zpos d * 2 ^ e0
    else Zpos n * 2 ^ (- e0) <? Zpos d in
  let e := if below then e0 - 1 else e0 in
  Z.max (e - 52) (-1074).

(** The integer nearest to [num/den], ties to the even one. *)
Definition round_half_even (num den : Z) : Z :=
  let q := num / den in
  let r := num mod den in
  if 2 * r <? den then q
  else if den <? 2 * r then q + 1
  else if Z.even q then q else q + 1.

(** Round a positive rational [n/d] to binary64: nearest, ties to even,
    overflow to infinity. *)
Definition round64_pos (n d : positive) : JSNum :=
  let u := ulp_exponent n d in
  if 0 <=? u then
    let m := round_half_even (Zpos n) (Zpos d * 2 ^ u) in
    if 2 ^ 1024 <=? m * 2 ^ u then PInf else Fin (inject_Z (m * 2 ^ u))
  else
    let m := round_half_even (Zpos n * 2 ^ (- u)) (Zpos d) in
    Fin (Qred (Qmake m (Z.to_pos (2 ^ (- u))))).

Definition neg (x : JSNum) : JSNum :=
  match x with
  | NaN => NaN
  | PInf => NInf
  | NInf => PInf
  | Fin q => Fin (Qred (- q))
  end.

Definition round64 (q : Q) : JSNum :=
  match Qnum q with
  | Z0 => Fin 0
  | Zpos n => round64_pos n (Qden q)
  | Zneg n => neg (round64_pos n (Qden q))
  end.

(** [x - y] *)
Definition sub (x y : JSNum) : JSNum :=
  match x, y with
  | NaN, _ | _, NaN => NaN
  | PInf, PInf | NInf, NInf => NaN
  | PInf, _ | _, NInf => PInf
  | NInf, _ | _, PInf => NInf
  | Fin a, Fin b => round64 (a - b)
  end.

Definition sign_of (x : JSNum) : Z :=
  match x with
  | NaN => 0
  | PInf => 1
  | NInf => -1
  | Fin q => Z.sgn (Qnum q)
  end.

(** [x * y] *)
Definition mul (x y : JSNum) : JSNum :=
  match x, y with
  | NaN, _ | _, NaN => NaN
  | Fin a, Fin b => round64 (a * b)
  | _, _ =>
      match sign_of x * sign_of y with
      | Z0 => NaN
      | Zpos _ => PInf
      | Zneg _ => NInf
      end
  end.

(** [Math.round(x)]: the nearest integer, ties towards +infinity. *)
Definition Math_round (x : JSNum) : JSNum :=
  match x with
  | Fin q => of_Z (Qfloor (q + (1 # 2)))
  | _ => x
  end.

(** [ToIntegerOrInfinity] on a finite value: truncation towards zero. *)
Definition trunc (q : Q) : Z := Z.quot (Qnum q) (Zpos (Qden q)).

(** *** [Number(string)]: ECMAScript StringToNumber *)

Fixpoint digits_val (base : Z) (acc : Z) (s : jsstring) : Z :=
  match s with
  | [] => acc
  | c :: s' =>
      let c := Z.of_N c in
      let v := if (48 <=? c) && (c <=? 57) then c - 48
               else if (97 <=? c) && (c <=? 102) then c - 87
               else c - 55 in
      digits_val base (acc * base + v) s'
  end.

Definition is_hex (c : N) : bool :=
  (Str.is_digit c || ((97 <=? c) && (c <=? 102))
   || ((65 <=? c) && (c <=? 70)))%N.
Definition is_oct (c : N) : bool := ((48 <=? c) && (c <=? 55))%N.
Definition is_bin (c : N) : bool := ((c =? 48) || (c =? 49))%N.

Definition nonempty (s : jsstring) : bool :=
  match s with [] => false | _ => true end.

(** [10 ^ k] for any integer [k]. *)
Definition pow10 (k : Z) : Q :=
  if 0 <=? k then inject_Z (10 ^ k) else Qmake 1 (Z.to_pos (10 ^ (- k))).

(** ExponentPart: [e] or [E], an optional sign, at least one digit, and
    nothing after it. *)
Definition parse_exponent (s : jsstring) : option Z :=
  match s with
  | [] => Some 0
  | c :: r =>
      if ((c =? 101) || (c =? 69))%N then
        let (sg, ds) :=
          match r with
          | c' :: r' =>
              if (c' =? 43)%N then (1, r')
              else if (c' =? 45)%N then (-1, r')
              else (1, r)
          | [] => (1, r)
          end in
        if nonempty ds && forallb Str.is_digit ds
        then Some (sg * digits_val 10 0 ds) else None
      else None
  end.

(** StrUnsignedDecimalLiteral: [Infinity], or digits with an optional
    fraction and exponent; a digit is required before or after the dot. *)
Definition parse_unsigned (s : jsstring) : JSNum :=
  if Str.eqb s (js "Infinity") then PInf else
  let (ip, r1) := Str.span Str.is_digit s in
  let (fp, r2) :=
    match r1 with
    | c :: r => if (c =? 46)%N then Str.span Str.is_digit r else ([], r1)
    | [] => ([], r1)
    end in
  if nonempty ip || nonempty fp then
    match parse_exponent r2 with
    | Some ex =>
        round64 (inject_Z (digits_val 10 0 (ip ++ fp))
                 * pow10 (ex - Z.of_nat (length fp)))
    | None => NaN
    end
  else NaN.

(** StrDecimalLiteral: an optional sign before the unsigned literal. *)
Definition parse_signed (s : jsstring) : JSNum :=
  match s with
  | c :: r =>
      if (c =? 43)%N then parse_unsigned r
      else if (c =? 45)%N then neg (parse_unsigned r)
      else parse_unsigned s
  | [] => parse_unsigned s
  end.

Definition parse_radix (base : Z) (digit : N -> bool) (r : jsstring) : JSNum :=
  if nonempty r && forallb digit r
  then round64 (inject_Z (digits_val base 0 r)) else NaN.

(** StrNumericLiteral: [0x], [0o], [0b] integers (unsigned), else a
    decimal literal. *)
Definition parse_literal (s : jsstring) : JSNum :=
  match s with
  | c0 :: c :: r =>
      if (c0 =? 48)%N && ((c =? 120) || (c =? 88))%N
      then parse_radix 16 is_hex r
      else if (c0 =? 48)%N && ((c =? 111) || (c =? 79))%N
      then parse_radix 8 is_oct r
      else if (c0 =? 48)%N && ((c =? 98) || (c =? 66))%N
      then parse_radix 2 is_bin r
      else parse_signed s
  | _ => parse_signed s
  end.

End Num.

(** [Number(s)] for a string [s]: surrounding white space is skipped, the
    empty string is [0], anything that is not a numeric literal is [NaN]. *)
Definition Number (s : jsstring) : JSNum :=
  match Str.trim s with
  | [] => Fin 0
  | t => Num.parse_literal t
  end.

(* ------------------------------------------------------------------ *)
(** ** Dates *)

(** The day and year arithmetic of ECMAScript's Date objects. *)
Module DateAlg.

Definition msPerDay : Z := 86400000.

Definition Day (t : Z) : Z := t / msPerDay.

Definition DayFromYear (y : Z) : Z :=
  365 * (y - 1970) + (y - 1969) / 4 - (y - 1901) / 100 + (y - 1601) / 400.

Definition InLeapYear (y : Z) : bool :=
  ((y mod 4 =? 0) && negb (y mod 100 =? 0)) || (y mod 400 =? 0).

(** The year that contains day number [d]: a first estimate from the mean
    year length, corrected by at most one. *)
Definition YearFromDay (d : Z) : Z :=
  let y0 := 1970 + (d * 400) / 146097 in
  if d <? DayFromYear y0 then y0 - 1
  else if DayFromYear (y0 + 1) <=? d then y0 + 1
  else y0.

Definition YearFromTime (t : Z) : Z := YearFromDay (Day t).

(** Days of the year before month [m] (0 = January). *)
Definition DaysBeforeMonth (leap : bool) (m : Z) : Z :=
  let l := if leap then 1 else 0 in
  match m with
  | 0 => 0
  | 1 => 31
  | 2 => 59 + l
  | 3 => 90 + l
  | 4 => 120 + l
  | 5 => 151 + l
  | 6 => 181 + l
  | 7 => 212 + l
  | 8 => 243 + l
  | 9 => 273 + l
  | 10 => 304 + l
  | _ => 334 + l
  end.

Definition DayWithinYear (t : Z) : Z := Day t - DayFromYear (YearFromTime t).

Definition MonthFromTime (t : Z) : Z :=
  let leap := InLeapYear (YearFromTime t) in
  let d := DayWithinYear t in
  if d <? DaysBeforeMonth leap 1 then 0
  else if d <? DaysBeforeMonth leap 2 then 1
  else if d <? DaysBeforeMonth leap 3 then 2
  else if d <? DaysBeforeMonth leap 4 then 3
  else if d <? DaysBeforeMonth leap 5 then 4
  else if d <? DaysBeforeMonth leap 6 then 5
  else if d <? DaysBeforeMonth leap 7 then 6
  else if d <? DaysBeforeMonth leap 8 then 7
  else if d <? DaysBeforeMonth leap 9 then 8
  else if d <? DaysBeforeMonth leap 10 then 9
  else if d <? DaysBeforeMonth leap 11 then 10
  else 11.

Definition DateFromTime (t : Z) : Z :=
  DayWithinYear t
  - DaysBeforeMonth (InLeapYear (YearFromTime t)) (MonthFromTime t) + 1.

(** [MakeDay(year, month, date)] on integral arguments: months outside
    0..11 carry into the year, the date counts on from the first of the
    month. *)
Definition MakeDay (year month date : Z) : Z :=
  let ym := year + month / 12 in
  let mn := month mod 12 in
  DayFromYear ym + DaysBeforeMonth (InLeapYear ym) mn + date - 1.

End DateAlg.

(** A Date object: its time value, [None] for the invalid date (NaN). *)
Record Date : Type := mkDate { time_value : option Z }.

(* ------------------------------------------------------------------ *)
(** ** Host environment *)

Record Host : Type := mkHost {
  (** [String.prototype.toLowerCase] (Unicode case mapping) *)
  toLowerCase : jsstring -> jsstring;
  (** [String.prototype.normalize("NFD")] (Unicode decomposition) *)
  normalizeNFD : jsstring -> jsstring;
  (** [Date.parse]: NaN or a time value; free on non-ISO text *)
  Date_parse : jsstring -> JSNum;
  (** [LocalTZA(t, isUTC)]: offset of local time from UTC in milliseconds *)
  LocalTZA : Z -> bool -> Z;
  (** [Number.prototype.toString] on finite values that are not integers
      below 10^21 *)
  Number_toString : Q -> jsstring;
  (** [Date.prototype.toString] on a valid time value *)
  Date_toString : Z -> jsstring
}.

(** [TimeClip] *)
Definition TimeClip (x : JSNum) : option Z :=
  match x with
  | Fin q =>
      if Qle_bool (inject_Z (-8640000000000000)) q
         && Qle_bool q (inject_Z 8640000000000000)
      then Some (Num.trunc q) else None
  | _ => None
  end.

(** [new Date(ms)] for a number [ms] *)
Definition new_Date_value (ms : JSNum) : Date := mkDate (TimeClip ms).

Definition finite (x : JSNum) : option Q :=
  match x with Fin q => Some q | _ => None end.

(** [new Date(y, m, d)]: local midnight of the given civil date.  Years
    0..99 stand for 1900..1999.  The day number and the time are computed
    on integers, which is what the binary64 arithmetic of [MakeDay] and
    [MakeDate] gives as long as the day number stays below 2^53. *)
Definition new_Date_ymd (h : Host) (y m d : JSNum) : Date :=
  match finite y, finite m, finite d with
  | Some y, Some m, Some d =>
      let yi := Num.trunc y in
      let yr := if (0 <=? yi) && (yi <=? 99) then 1900 + yi else yi in
      let day := DateAlg.MakeDay yr (Num.trunc m) (Num.trunc d) in
      let t := day * DateAlg.msPerDay in
      let utc := t - LocalTZA h t false in
      mkDate (if Z.abs utc <=? 8640000000000000 then Some utc else None)
  | _, _, _ => mkDate None
  end.

Definition LocalTime (h : Host) (t : Z) : Z := t + LocalTZA h t true.

(** [d.getFullYear()] *)
Definition getFullYear (h : Host) (d : Date) : JSNum :=
  match time_value d with
  | Some t => Num.of_Z (DateAlg.YearFromTime (LocalTime h t))
  | None => NaN
  end.

(** [d.getMonth()] *)
Definition getMonth (h : Host) (d : Date) : JSNum :=
  match time_value d with
  | Some t => Num.of_Z (DateAlg.MonthFromTime (LocalTime h t))
  | None => NaN
  end.

(** [d.getDate()] *)
Definition getDate (h : Host) (d : Date) : JSNum :=
  match time_value d with
  | Some t => Num.of_Z (DateAlg.DateFromTime (LocalTime h t))
  | None => NaN
  end.

(* ------------------------------------------------------------------ *)
(** ** Values *)

(** The values a cell of [RawRow] (declared [Record<string, any>]) can
    hold. *)
Inductive JSValue : Type :=
| VUndefined
| VNull
| VBool (b : bool)
| VNum (x : JSNum)
| VStr (s : jsstring)
| VDate (d : Date).

Fixpoint uint_digits (u : Decimal.uint) : jsstring :=
  match u with
  | Decimal.Nil => []
  | Decimal.D0 u => 48%N :: uint_digits u
  | Decimal.D1 u => 49%N :: uint_digits u
  | Decimal.D2 u => 50%N :: uint_digits u
  | Decimal.D3 u => 51%N :: uint_digits u
  | Decimal.D4 u => 52%N :: uint_digits u
  | Decimal.D5 u => 53%N :: uint_digits u
  | Decimal.D6 u => 54%N :: uint_digits u
  | Decimal.D7 u => 55%N :: uint_digits u
  | Decimal.D8 u => 56%N :: uint_digits u
  | Decimal.D9 u => 57%N :: uint_digits u
  end.

(** [String(x)] for a number [x] *)
Definition num_to_string (h : Host) (x : JSNum) : jsstring :=
  match x with
  | NaN => js "NaN"
  | PInf => js "Infinity"
  | NInf => js "-Infinity"
  | Fin q =>
      match Qden q with
      | xH =>
          let n := Qnum q in
          if Z.abs n <? 10 ^ 21 then
            (if n <? 0 then [45%N] else [])
            ++ uint_digits (N.to_uint (Z.abs_N n))
          else Number_toString h q
      | _ => Number_toString h q
      end
  end.

(** [String(v)] *)
Definition ToString (h : Host) (v : JSValue) : jsstring :=
  match v with
  | VUndefined => js "undefined"
  | VNull => js "null"
  | VBool true => js "true"
  | VBool false => js "false"
  | VNum x => num_to_string h x
  | VStr s => s
  | VDate d =>
      match time_value d with
      | Some t => Date_toString h t
      | None => js "Invalid Date"
      end
  end.

(** ToBoolean: what [!v] and [v || ...] test. *)
Definition truthy (v : JSValue) : bool :=
  match v with
  | VUndefined | VNull => false
  | VBool b => b
  | VNum NaN => false
  | VNum (Fin q) => negb (Qeq_bool q 0)
  | VNum _ => true
  | VStr s => Num.nonempty s
  | VDate _ => true
  end.

(** [v === 0] *)
Definition is_zero (v : JSValue) : bool :=
  match v with
  | VNum (Fin q) => Qeq_bool q 0
  | _ => false
  end.

(* ------------------------------------------------------------------ *)
(** ** Header normalisation *)

(** [normalizeHeader]: the argument is declared [string]; the empty string
    is the one falsy string.  The last step removes the combining marks
    U+0300..U+036F. *)
Definition normalizeHeader (h : Host) (s : jsstring) : jsstring :=
  if negb (Num.nonempty s) then []
  else filter (fun c => negb ((768 <=? c) && (c <=? 879))%N)
              (normalizeNFD h (toLowerCase h (Str.trim s))).

(* ------------------------------------------------------------------ *)
(** ** Sorting *)

(** [Array.prototype.sort(cmp)]: a stable sort, here by insertion;
    [cmp a b <= 0] keeps [a] before [b].  For a comparator that orders the
    elements consistently every stable sort returns the same list. *)
Section Sort.

Context {A : Type} (cmp : A -> A -> Z).

Fixpoint sort_insert (x : A) (l : list A) : list A :=
  match l with
  | [] => [x]
  | y :: l' => if cmp x y <=? 0 then x :: l else y :: sort_insert x l'
  end.

Definition Array_sort (l : list A) : list A := fold_right sort_insert [] l.

End Sort.

(* ------------------------------------------------------------------ *)
(** ** Plain objects used as string-keyed tables *)

Module Obj.

(** Own properties in creation order. *)
Definition t (V : Type) : Type := list (jsstring * V).

Definition own {V : Type} (o : t V) (k : jsstring) : option V :=
  match find (fun e => Str.eqb (fst e) k) o with
  | Some e => Some (snd e)
  | None => None
  end.

(** The members every plain object inherits from [Object.prototype]. *)
Definition prototype_members : list jsstring :=
  [ js "constructor"; js "hasOwnProperty"; js "isPrototypeOf";
    js "propertyIsEnumerable"; js "toLocaleString"; js "toString";
    js "valueOf"; js "__proto__"; js "__defineGetter__";
    js "__defineSetter__"; js "__lookupGetter__"; js "__lookupSetter__" ].

Definition inherited (k : jsstring) : bool :=
  existsb (Str.eqb k) prototype_members.

(** What [o[k]] reads: an own property, else a member of the prototype
    (a function or an object, never a table value), else [undefined]. *)
Inductive lookup (V : Type) : Type :=
| Own (v : V)
| Inherited
| Missing.
Arguments Own {V} v.
Arguments Inherited {V}.
Arguments Missing {V}.

Definition get {V : Type} (o : t V) (k : jsstring) : lookup V :=
  match own o k with
  | Some v => Own v
  | None => if inherited k then Inherited else Missing
  end.

Fixpoint replace {V : Type} (o : t V) (k : jsstring) (v : V) : t V :=
  match o with
  | [] => []
  | e :: o' =>
      if Str.eqb (fst e) k then (k, v) :: o' else e :: replace o' k v
  end.

(** [o[k] = v] for a value [v] that is not an object: an existing property
    keeps its place, a new one is created last; [__proto__] is an accessor
    whose setter ignores such a value. *)
Definition set {V : Type} (o : t V) (k : jsstring) (v : V) : t V :=
  match own o k with
  | Some _ => replace o k v
  | None => if Str.eqb k (js "__proto__") then o else o ++ [(k, v)]
  end.

(** An array index: the canonical decimal text of an integer below
    2^32 - 1. *)
Definition is_index (k : jsstring) : bool :=
  Num.nonempty k && forallb Str.is_digit k
  && match k with
     | 48%N :: _ :: _ => false
     | _ => true
     end
  && (Num.digits_val 10 0 k <? 4294967295).

(** The integer an array index stands for. *)
Definition index_of (k : jsstring) : Z := Num.digits_val 10 0 k.

Definition by_index {V : Type} (a b : jsstring * V) : Z :=
  index_of (fst a) - index_of (fst b).

(** [Object.entries(o)]: array-index keys first, in ascending numeric
    order, then the other keys in creation order. *)
Definition entries {V : Type} (o : t V) : list (jsstring * V) :=
  Array_sort by_index (filter (fun e => is_index (fst e)) o)
  ++ filter (fun e => negb (is_index (fst e))) o.

(** [Object.keys(o)] *)
Definition keys {V : Type} (o : t V) : list jsstring := map fst (entries o).

End Obj.

(* ------------------------------------------------------------------ *)
(** ** Header resolution *)

(** The values of [headerMap]: the fields of [Cliente] a column can fill. *)
Inductive Key : Type :=
| K_nome
| K_cpf
| K_estado
| K_cidade
| K_responsavelFidelizacao
| K_acoesInformadas
| K_situacao
| K_pendencias
| K_dataProc
| K_dataEnvioProc
| K_dataLimiteCadastro
| K_dataLimiteAnalise
| K_dataLimitePeticao
| K_dataLimiteProtocolo
| K_prazo20dias
| K_diasAtrasado
| K_responsavelCadastramento.

Definition headerMap : Obj.t Key :=
  [ (js "cliente novo", K_nome);
    (js "nome", K_nome);
    (js "cpf", K_cpf);
    (js "estado", K_estado);
    (js "cidade", K_cidade);
    (js "responsavel da fidelizacao", K_responsavelFidelizacao);
    (js "responsavel pela fidelizacao", K_responsavelFidelizacao);
    (js "responsavel fidelizacao", K_responsavelFidelizacao);
    (js "acoes informadas", K_acoesInformadas);
    (js "situacao", K_situacao);
    (js "pendencias", K_pendencias);
    (js "data da procuracao", K_dataProc);
    (js "data do envio da procuracao", K_dataEnvioProc);
    (js "data limite para cadastro", K_dataLimiteCadastro);
    (js "data limite para analise", K_dataLimiteAnalise);
    (js "data limite para peticao inicial", K_dataLimitePeticao);
    (js "data limite para protocolo", K_dataLimiteProtocolo);
    (js "prazo de 20 dias", K_prazo20dias);
    (js "quantos dias esta atrasado", K_diasAtrasado);
    (js "quantos dias est" ++ [225%N] ++ js " atrasado", K_diasAtrasado);
    (js "responsavel pelo cadastramento", K_responsavelCadastramento);
    (js "responsavel pelo cadastro", K_responsavelCadastramento);
    (js "responsavel", K_responsavelCadastramento) ].

(** What [mapHeaderToKey] can return besides [undefined]: a value of the
    table, or the member of [Object.prototype] that [headerMap[normalized]]
    reads when [normalized] is the name of one. *)
Inductive Resolved : Type :=
| Field (k : Key)
| ProtoMember (name : jsstring).

(** The [for ... of Object.keys(headerMap)] loop. *)
Fixpoint scan_keys (normalized : jsstring) (ks : list jsstring)
  : option Resolved :=
  match ks with
  | [] => None
  | k :: ks' =>
      if Str.includes normalized k then
        match Obj.get headerMap k with
        | Obj.Own f => Some (Field f)
        | Obj.Inherited => Some (ProtoMember k)
        | Obj.Missing => None
        end
      else scan_keys normalized ks'
  end.

(** Every value of the table is a non-empty string and every inherited
    member is a function or an object, so the test
    [if (headerMap[normalized])] succeeds exactly when the read finds
    something. *)
Definition mapHeaderToKey (normalized : jsstring) : option Resolved :=
  match Obj.get headerMap normalized with
  | Obj.Own f => Some (Field f)
  | Obj.Inherited => Some (ProtoMember normalized)
  | Obj.Missing => scan_keys normalized (Obj.keys headerMap)
  end.

(* ------------------------------------------------------------------ *)
(** ** Cell coercions *)

(** A value of type [A | null]. *)
Inductive nullable (A : Type) : Type :=
| JNull
| JVal (a : A).
Arguments JNull {A}.
Arguments JVal {A} a.

(** The block "ISO-ish" of [parseDate]: [Some dt] when it returns. *)
Definition iso_attempt (h : Host) (s : jsstring) : option Date :=
  let iso := Date_parse h s in
  if negb (Num.isNaN iso) then
    let dt := new_Date_value iso in
    if Num.gtb (getFullYear h dt) (Num.of_Z 1900) then Some dt else None
  else None.

(** The block "Excel serial" of [parseDate]: [Some dt] when it returns. *)
Definition serial_attempt (h : Host) (s : jsstring) : option Date :=
  let n := Number s in
  if negb (Num.isNaN n) && Num.gtb n (Num.of_Z 0) then
    let dt :=
      new_Date_value
        (Num.Math_round
           (Num.mul (Num.mul (Num.sub n (Num.of_Z 25569)) (Num.of_Z 86400))
                    (Num.of_Z 1000))) in
    if Num.gtb (getFullYear h dt) (Num.of_Z 1900) then Some dt else None
  else None.

Definition parseDate (h : Host) (value : JSValue) : nullable Date :=
  if negb (truthy value) && negb (is_zero value) then JNull else
  match value with
  | VDate {| time_value := Some t |} => JVal (mkDate (Some t))
  | _ =>
      let s := Str.trim (ToString h value) in
      if negb (Num.nonempty s) then JNull else
      let parts := Str.split_on 47%N s in
      if (length parts =? 3)%nat then
        let d := Number (nth 0 parts []) in
        let m := Num.sub (Number (nth 1 parts [])) (Num.of_Z 1) in
        let y := Number (nth 2 parts []) in
        if negb (Num.isNaN d) && negb (Num.isNaN m) && negb (Num.isNaN y)
           && Num.gtb y (Num.of_Z 1900)
        then JVal (new_Date_ymd h y m d)
        else JNull
      else
        match iso_attempt h s with
        | Some dt => JVal dt
        | None =>
            match serial_attempt h s with
            | Some dt => JVal dt
            | None => JNull
            end
        end
  end.

(** The class [[,;|\/]] of the separator pattern. *)
Definition is_separator (c : N) : bool :=
  ((c =? 44) || (c =? 59) || (c =? 124) || (c =? 47))%N.

Definition splitPendencias (h : Host) (raw : JSValue) : list jsstring :=
  if negb (truthy raw) then [] else
  let s := Str.replace_unit 10%N (Str.replace_unit 13%N (ToString h raw)) in
  filter Num.nonempty (map Str.trim (Str.split_runs is_separator s)).

(** The [diasAtrasado] case of the row mapper. *)
Definition coerceDias (h : Host) (v : JSValue) : nullable JSNum :=
  let n := Number (Str.strip_non_digits (ToString h v)) in
  if Num.isNaN n then JNull else JVal n.

(** The default case of the row mapper: the trimmed text of [v], of the
    empty string when [v] is [null] or [undefined]. *)
Definition coerceText (h : Host) (v : JSValue) : jsstring :=
  match v with
  | VUndefined | VNull => []
  | _ => Str.trim (ToString h v)
  end.

(* ------------------------------------------------------------------ *)
(** ** Records *)

(** [RawRow]: one spreadsheet row, a table from header text to cell. *)
Definition RawRow : Type := Obj.t JSValue.

(** [Cliente]: every field is optional ([None] is an absent property). *)
Record Cliente : Type := mkCliente {
  nome : option jsstring;
  cpf : option jsstring;
  estado : option jsstring;
  cidade : option jsstring;
  responsavelFidelizacao : option jsstring;
  acoesInformadas : option jsstring;
  situacao : option jsstring;
  pendencias : option (list jsstring);
  dataProc : option (nullable Date);
  dataEnvioProc : option (nullable Date);
  dataLimiteCadastro : option (nullable Date);
  dataLimiteAnalise : option (nullable Date);
  dataLimitePeticao : option (nullable Date);
  dataLimiteProtocolo : option (nullable Date);
  prazo20dias : option jsstring;
  diasAtrasado : option (nullable JSNum);
  responsavelCadastramento : option jsstring;
  raw : option RawRow
}.

(** Field updates: [out.f = v]. *)
Definition set_nome (v : jsstring) (c : Cliente) : Cliente :=
  mkCliente (Some v) (cpf c) (estado c) (cidade c)
    (responsavelFidelizacao c) (acoesInformadas c) (situacao c)
    (pendencias c) (dataProc c) (dataEnvioProc c) (dataLimiteCadastro c)
    (dataLimiteAnalise c) (dataLimitePeticao c) (dataLimiteProtocolo c)
    (prazo20dias c) (diasAtrasado c) (responsavelCadastramento c) (raw c).

Definition set_cpf (v : jsstring) (c : Cliente) : Cliente :=
  mkCliente (nome c) (Some v) (estado c) (cidade c)
    (responsavelFidelizacao c) (acoesInformadas c) (situacao c)
    (pendencias c) (dataProc c) (dataEnvioProc c) (dataLimiteCadastro c)
    (dataLimiteAnalise c) (dataLimitePeticao c) (dataLimiteProtocolo c)
    (prazo20dias c) (diasAtrasado c) (responsavelCadastramento c) (raw c).

Definition set_estado (v : jsstring) (c : Cliente) : Cliente :=
  mkCliente (nome c) (cpf c) (Some v) (cidade c) (responsavelFidelizacao c)
    (acoesInformadas c) (situacao c) (pendencias c) (dataProc c)
    (dataEnvioProc c) (dataLimiteCadastro c) (dataLimiteAnalise c)
    (dataLimitePeticao c) (dataLimiteProtocolo c) (prazo20dias c)
    (diasAtrasado c) (responsavelCadastramento c) (raw c).

Definition set_cidade (v : jsstring) (c : Cliente) : Cliente :=
  mkCliente (nome c) (cpf c) (estado c) (Some v) (responsavelFidelizacao c)
    (acoesInformadas c) (situacao c) (pendencias c) (dataProc c)
    (dataEnvioProc c) (dataLimiteCadastro c) (dataLimiteAnalise c)
    (dataLimitePeticao c) (dataLimiteProtocolo c) (prazo20dias c)
    (diasAtrasado c) (responsavelCadastramento c) (raw c).

Definition set_responsavelFidelizacao (v : jsstring) (c : Cliente) : Cliente :=
  mkCliente (nome c) (cpf c) (estado c) (cidade c) (Some v)
    (acoesInformadas c) (situacao c) (pendencias c) (dataProc c)
    (dataEnvioProc c) (dataLimiteCadastro c) (dataLimiteAnalise c)
    (dataLimitePeticao c) (dataLimiteProtocolo c) (prazo20dias c)
    (diasAtrasado c) (responsavelCadastramento c) (raw c).

Definition set_acoesInformadas (v : jsstring) (c : Cliente) : Cliente :=
  mkCliente (nome c) (cpf c) (estado c) (cidade c)
    (responsavelFidelizacao c) (Some v) (situacao c) (pendencias c)
    (dataProc c) (dataEnvioProc c) (dataLimiteCadastro c)
    (dataLimiteAnalise c) (dataLimitePeticao c) (dataLimiteProtocolo c)
    (prazo20dias c) (diasAtrasado c) (responsavelCadastramento c) (raw c).

Definition set_situacao (v : jsstring) (c : Cliente) : Cliente :=
  mkCliente (nome c) (cpf c) (estado c) (cidade c)
    (responsavelFidelizacao c) (acoesInformadas c) (Some v) (pendencias c)
    (dataProc c) (dataEnvioProc c) (dataLimiteCadastro c)
    (dataLimiteAnalise c) (dataLimitePeticao c) (dataLimiteProtocolo c)
    (prazo20dias c) (diasAtrasado c) (responsavelCadastramento c) (raw c).

Definition set_pendencias (v : list jsstring) (c : Cliente) : Cliente :=
  mkCliente (nome c) (cpf c) (estado c) (cidade c)
    (responsavelFidelizacao c) (acoesInformadas c) (situacao c) (Some v)
    (dataProc c) (dataEnvioProc c) (dataLimiteCadastro c)
    (dataLimiteAnalise c) (dataLimitePeticao c) (dataLimiteProtocolo c)
    (prazo20dias c) (diasAtrasado c) (responsavelCadastramento c) (raw c).

Definition set_dataProc (v : nullable Date) (c : Cliente) : Cliente :=
  mkCliente (nome c) (cpf c) (estado c) (cidade c)
    (responsavelFidelizacao c) (acoesInformadas c) (situacao c)
    (pendencias c) (Some v) (dataEnvioProc c) (dataLimiteCadastro c)
    (dataLimiteAnalise c) (dataLimitePeticao c) (dataLimiteProtocolo c)
    (prazo20dias c) (diasAtrasado c) (responsavelCadastramento c) (raw c).

Definition set_dataEnvioProc (v : nullable Date) (c : Cliente) : Cliente :=
  mkCliente (nome c) (cpf c) (estado c) (cidade c)
    (responsavelFidelizacao c) (acoesInformadas c) (situacao c)
    (pendencias c) (dataProc c) (Some v) (dataLimiteCadastro c)
    (dataLimiteAnalise c) (dataLimitePeticao c) (dataLimiteProtocolo c)
    (prazo20dias c) (diasAtrasado c) (responsavelCadastramento c) (raw c).

Definition set_dataLimiteCadastro (v : nullable Date) (c : Cliente) : Cliente :=
  mkCliente (nome c) (cpf c) (estado c) (cidade c)
    (responsavelFidelizacao c) (acoesInformadas c) (situacao c)
    (pendencias c) (dataProc c) (dataEnvioProc c) (Some v)
    (dataLimiteAnalise c) (dataLimitePeticao c) (dataLimiteProtocolo c)
    (prazo20dias c) (diasAtrasado c) (responsavelCadastramento c) (raw c).

Definition set_dataLimiteAnalise (v : nullable Date) (c : Cliente) : Cliente :=
  mkCliente (nome c) (cpf c) (estado c) (cidade c)
    (responsavelFidelizacao c) (acoesInformadas c) (situacao c)
    (pendencias c) (dataProc c) (dataEnvioProc c) (dataLimiteCadastro c)
    (Some v) (dataLimitePeticao c) (dataLimiteProtocolo c) (prazo20dias c)
    (diasAtrasado c) (responsavelCadastramento c) (raw c).

Definition set_dataLimitePeticao (v : nullable Date) (c : Cliente) : Cliente :=
  mkCliente (nome c) (cpf c) (estado c) (cidade c)
    (responsavelFidelizacao c) (acoesInformadas c) (situacao c)
    (pendencias c) (dataProc c) (dataEnvioProc c) (dataLimiteCadastro c)
    (dataLimiteAnalise c) (Some v) (dataLimiteProtocolo c) (prazo20dias c)
    (diasAtrasado c) (responsavelCadastramento c) (raw c).

Definition set_dataLimiteProtocolo (v : nullable Date) (c : Cliente)
  : Cliente :=
  mkCliente (nome c) (cpf c) (estado c) (cidade c)
    (responsavelFidelizacao c) (acoesInformadas c) (situacao c)
    (pendencias c) (dataProc c) (dataEnvioProc c) (dataLimiteCadastro c)
    (dataLimiteAnalise c) (dataLimitePeticao c) (Some v) (prazo20dias c)
    (diasAtrasado c) (responsavelCadastramento c) (raw c).

Definition set_prazo20dias (v : jsstring) (c : Cliente) : Cliente :=
  mkCliente (nome c) (cpf c) (estado c) (cidade c)
    (responsavelFidelizacao c) (acoesInformadas c) (situacao c)
    (pendencias c) (dataProc c) (dataEnvioProc c) (dataLimiteCadastro c)
    (dataLimiteAnalise c) (dataLimitePeticao c) (dataLimiteProtocolo c)
    (Some v) (diasAtrasado c) (responsavelCadastramento c) (raw c).

Definition set_diasAtrasado (v : nullable JSNum) (c : Cliente) : Cliente :=
  mkCliente (nome c) (cpf c) (estado c) (cidade c)
    (responsavelFidelizacao c) (acoesInformadas c) (situacao c)
    (pendencias c) (dataProc c) (dataEnvioProc c) (dataLimiteCadastro c)
    (dataLimiteAnalise c) (dataLimitePeticao c) (dataLimiteProtocolo c)
    (prazo20dias c) (Some v) (responsavelCadastramento c) (raw c).

Definition set_responsavelCadastramento (v : jsstring) (c : Cliente)
  : Cliente :=
  mkCliente (nome c) (cpf c) (estado c) (cidade c)
    (responsavelFidelizacao c) (acoesInformadas c) (situacao c)
    (pendencias c) (dataProc c) (dataEnvioProc c) (dataLimiteCadastro c)
    (dataLimiteAnalise c) (dataLimitePeticao c) (dataLimiteProtocolo c)
    (prazo20dias c) (diasAtrasado c) (Some v) (raw c).

(* ------------------------------------------------------------------ *)
(** ** Row mapping *)

(** The body of the [forEach] over [Object.entries(row)]: one column. *)
Definition mapColumn (h : Host) (out : Cliente) (col : jsstring * JSValue)
  : Cliente :=
  let (hd, v) := col in
  let nh := normalizeHeader h hd in
  match mapHeaderToKey nh with
  | None => out
  | Some (ProtoMember _) =>
      (* the default case stores the text under the member's own text,
         which is no field of [Cliente] *)
      out
  | Some (Field key) =>
      match key with
      | K_dataProc => set_dataProc (parseDate h v) out
      | K_dataEnvioProc => set_dataEnvioProc (parseDate h v) out
      | K_dataLimiteCadastro => set_dataLimiteCadastro (parseDate h v) out
      | K_dataLimiteAnalise => set_dataLimiteAnalise (parseDate h v) out
      | K_dataLimitePeticao => set_dataLimitePeticao (parseDate h v) out
      | K_dataLimiteProtocolo => set_dataLimiteProtocolo (parseDate h v) out
      | K_pendencias => set_pendencias (splitPendencias h v) out
      | K_diasAtrasado => set_diasAtrasado (coerceDias h v) out
      | K_nome => set_nome (coerceText h v) out
      | K_cpf => set_cpf (coerceText h v) out
      | K_estado => set_estado (coerceText h v) out
      | K_cidade => set_cidade (coerceText h v) out
      | K_responsavelFidelizacao =>
          set_responsavelFidelizacao (coerceText h v) out
      | K_acoesInformadas => set_acoesInformadas (coerceText h v) out
      | K_situacao => set_situacao (coerceText h v) out
      | K_prazo20dias => set_prazo20dias (coerceText h v) out
      | K_responsavelCadastramento =>
          set_responsavelCadastramento (coerceText h v) out
      end
  end.

(** The record [{ raw: row }] the mapper starts from. *)
Definition newCliente (row : RawRow) : Cliente :=
  mkCliente None None None None None None None None None None None None None
    None None None None (Some row).

(** The record after every column is processed. *)
Definition mapColumns (h : Host) (row : RawRow) : Cliente :=
  fold_left (mapColumn h) (Obj.entries row) (newCliente row).

(** The overdue fallback; [now] is what [Date.now()] returns.  A time value
    is an integer of magnitude at most 8.64e15 and [now] is far below 2^53
    less that, so the difference and the floor of the quotient are exact in
    binary64 and are computed here on integers.  With the invalid date
    [getTime()] is NaN, the comparison [diff > 0] fails and 0 is stored. *)
Definition overdueFallback (now : Z) (out : Cliente) : Cliente :=
  match diasAtrasado out, dataLimiteProtocolo out with
  | (None | Some JNull), Some (JVal d) =>
      match time_value d with
      | Some t =>
          let diff := (now - t) / (1000 * 60 * 60 * 24) in
          set_diasAtrasado (JVal (Num.of_Z (if 0 <? diff then diff else 0))) out
      | None => set_diasAtrasado (JVal (Num.of_Z 0)) out
      end
  | _, _ => out
  end.

(** The callback of [raw.map(...)] in [handleFile]. *)
Definition mapRow (h : Host) (now : Z) (row : RawRow) : Cliente :=
  overdueFallback now (mapColumns h row).

(* ------------------------------------------------------------------ *)
(** ** Aggregates *)

(** What a counter of a frequency table holds: a number, or, for a label
    that is the name of a member of [Object.prototype], the text obtained
    by appending "1" to that member. *)
Inductive CountVal : Type :=
| Count (n : Z)
| Junk.

(** [acc[k] = (acc[k] || 0) + 1] *)
Definition bump (acc : Obj.t CountVal) (k : jsstring) : Obj.t CountVal :=
  match Obj.get acc k with
  | Obj.Own (Count n) => Obj.set acc k (Count ((if n =? 0 then 0 else n) + 1))
  | Obj.Own Junk => Obj.set acc k Junk
  | Obj.Inherited => Obj.set acc k Junk
  | Obj.Missing => Obj.set acc k (Count 1)
  end.

(** [b.value - a.value]; NaN (a counter that is no number) orders as 0. *)
Definition byValueDesc (a b : jsstring * CountVal) : Z :=
  match snd b, snd a with
  | Count y, Count x => y - x
  | _, _ => 0
  end.

Definition SemEspecificar : jsstring := js "Sem especificar".

Definition NaoInformado : jsstring := js "N" ++ [227%N] ++ js "o informado".

(** [clientes.flatMap((c) => c.pendencias || [])] *)
Definition pendenciasFlat (clientes : list Cliente) : list jsstring :=
  flat_map (fun c => match pendencias c with
                     | Some l => l
                     | None => []
                     end) clientes.

(** [p || "Sem especificar"] *)
Definition pendenciaLabel (p : jsstring) : jsstring :=
  if Num.nonempty p then p else SemEspecificar.

Definition pendenciasCount (clientes : list Cliente) : Obj.t CountVal :=
  fold_left (fun acc p => bump acc (pendenciaLabel p))
            (pendenciasFlat clientes) [].

Definition pendenciasArray (clientes : list Cliente)
  : list (jsstring * CountVal) :=
  Array_sort byValueDesc (Obj.entries (pendenciasCount clientes)).

(** [(c.cidade || "Não informado").trim()] *)
Definition cityLabel (c : Cliente) : jsstring :=
  Str.trim (match cidade c with
            | Some s => if Num.nonempty s then s else NaoInformado
            | None => NaoInformado
            end).

Definition cityCount (clientes : list Cliente) : Obj.t CountVal :=
  fold_left (fun acc c => bump acc (cityLabel c)) clientes [].

Definition topCities (clientes : list Cliente) : list (jsstring * CountVal) :=
  firstn 10 (Array_sort byValueDesc (Obj.entries (cityCount clientes))).

(* ------------------------------------------------------------------ *)
(** ** A reference host for closed examples

    UTC as the local time zone, a [Date.parse] that accepts only the
    date-only ISO form [YYYY-MM-DD], and case mapping on ASCII letters.
    The examples apply it to ASCII text and never ask it for the text of a
    non-integral number or of a date. *)

Definition ascii_lower (s : jsstring) : jsstring :=
  map (fun c => if ((65 <=? c) && (c <=? 90))%N then (c + 32)%N else c) s.

Definition parse_iso_date (s : jsstring) : JSNum :=
  match s with
  | [y1; y2; y3; y4; 45%N; m1; m2; 45%N; d1; d2] =>
      if forallb Str.is_digit [y1; y2; y3; y4; m1; m2; d1; d2] then
        let y := Num.digits_val 10 0 [y1; y2; y3; y4] in
        let m := Num.digits_val 10 0 [m1; m2] in
        let d := Num.digits_val 10 0 [d1; d2] in
        if (1 <=? m) && (m <=? 12) && (1 <=? d) && (d <=? 31) then
          Num.of_Z (DateAlg.MakeDay y (m - 1) d * DateAlg.msPerDay)
        else NaN
      else NaN
  | _ => NaN
  end.

Definition utcHost : Host :=
  {| toLowerCase := ascii_lower;
     normalizeNFD := fun s => s;
     Date_parse := parse_iso_date;
     LocalTZA := fun _ _ => 0;
     Number_toString := fun _ => js "?";
     Date_toString := fun _ => js "?" |}.

(** A host whose [Date.parse] accepts more than the ISO form, which
    ECMAScript allows: like V8's, it reads a text of five digits, the first
    not 0, as a year number, and returns the local midnight of 1 January of
    that year.  Otherwise it is [utcHost]. *)
Definition parse_year_number (s : jsstring) : JSNum :=
  if (length s =? 5)%nat && forallb Str.is_digit s
     && negb (hd 48%N s =? 48)%N
  then Num.of_Z (DateAlg.MakeDay (Num.digits_val 10 0 s) 0 1
                 * DateAlg.msPerDay)
  else parse_iso_date s.

Definition yearHost : Host :=
  {| toLowerCase := ascii_lower;
     normalizeNFD := fun s => s;
     Date_parse := parse_year_number;
     LocalTZA := fun _ _ => 0;
     Number_toString := fun _ => js "?";
     Date_toString := fun _ => js "?" |}.

(* ------------------------------------------------------------------ *)
(** ** Vocabulary of the statements *)

(** The first entry of [headerMap] whose key occurs in the header. *)
Definition first_substring_key (normalized : jsstring) : option Key :=
  match find (fun e => Str.includes normalized (fst e)) headerMap with
  | Some e => Some (snd e)
  | None => None
  end.

(** A number that is neither NaN nor negative. *)
Definition nonneg (x : JSNum) : Prop :=
  match x with
  | Fin q => (0 <= q)%Q
  | PInf => True
  | NaN | NInf => False
  end.

(** A code unit that is neither a separator of the pendency pattern nor a
    line break. *)
Definition label_unit (c : N) : bool :=
  negb (is_separator c) && negb (c =? 10)%N && negb (c =? 13)%N.

(** The part of [parseDate] that works on the text [s] of the value, from
    the test [if (!s)] on. *)
Definition parseText (h : Host) (s : jsstring) : nullable Date :=
  if negb (Num.nonempty s) then JNull else
  let parts := Str.split_on 47%N s in
  if (length parts =? 3)%nat then
    let d := Number (nth 0 parts []) in
    let m := Num.sub (Number (nth 1 parts [])) (Num.of_Z 1) in
    let y := Number (nth 2 parts []) in
    if negb (Num.isNaN d) && negb (Num.isNaN m) && negb (Num.isNaN y)
       && Num.gtb y (Num.of_Z 1900)
    then JVal (new_Date_ymd h y m d)
    else JNull
  else
    match iso_attempt h s with
    | Some dt => JVal dt
    | None =>
        match serial_attempt h s with
        | Some dt => JVal dt
        | None => JNull
        end
    end.

(** The value [v], of text [s], gets as far as the serial attempt of
    [parseDate]: no earlier statement returns. *)
Definition reaches_serial (h : Host) (v : JSValue) (s : jsstring) : Prop :=
  (truthy v = true \/ is_zero v = true) /\
  (forall t, v <> VDate (mkDate (Some t))) /\
  s = Str.trim (ToString h v) /\
  s <> [] /\
  length (Str.split_on 47%N s) <> 3%nat /\
  iso_attempt h s = None.

(** The number computed by the serial attempt:
    [Math.round((n - 25569) * 86400 * 1000)]. *)
Definition serial_ms (n : JSNum) : JSNum :=
  Num.Math_round
    (Num.mul (Num.mul (Num.sub n (Num.of_Z 25569)) (Num.of_Z 86400))
             (Num.of_Z 1000)).

(** Length of month [m] (0 = January). *)
Definition DaysInMonth (leap : bool) (m : Z) : Z :=
  match m with
  | 1 => if leap then 29 else 28
  | 3 | 5 | 8 | 10 => 30
  | _ => 31
  end.

(** The local time [t] exists and is unambiguous on host [h]: converting it
    to UTC and back gives [t] again (it is not inside a daylight-saving
    gap), and the offset is below one day. *)
Definition plain_local_time (h : Host) (t : Z) : Prop :=
  Z.abs (LocalTZA h t false) <= DateAlg.msPerDay /\
  LocalTZA h (t - LocalTZA h t false) true = LocalTZA h t false.

Definition Key_eq_dec : forall a b : Key, {a = b} + {a <> b}.
Proof. decide equality. Defined.

(** The column's header resolves to the field [k]. *)
Definition resolves_to (h : Host) (k : Key) (col : jsstring * JSValue) : bool :=
  match mapHeaderToKey (normalizeHeader h (fst col)) with
  | Some (Field k') => if Key_eq_dec k k' then true else false
  | _ => false
  end.

(** The number behind a counter (0 for one that is no number). *)
Definition count_of (v : CountVal) : Z :=
  match v with
  | Count n => n
  | Junk => 0
  end.

(** How often the label [k] occurs in a list of labels. *)
Definition occurrences (k : jsstring) (labels : list jsstring) : Z :=
  Z.of_nat (count_occ (list_eq_dec N.eq_dec) labels k).

(** A pendency entry that is counted under ["Sem especificar"]: the empty
    text, or that very text. *)
Definition unspecified (p : jsstring) : bool :=
  negb (Num.nonempty p) || Str.eqb p SemEspecificar.

(** The distinct labels of a list, in the order of their first
    occurrence. *)
Definition add_new (seen : list jsstring) (k : jsstring) : list jsstring :=
  if existsb (Str.eqb k) seen then seen else seen ++ [k].

Definition first_seen (labels : list jsstring) : list jsstring :=
  fold_left add_new labels [].

(** No label of the list is the name of a member of [Object.prototype]. *)
Definition plain_labels (labels : list jsstring) : Prop :=
  Forall (fun k => Obj.inherited k = false) labels.

(** The rank by which [byValueDesc] orders numeric counters: larger
    counts first. *)
Definition rank (e : jsstring * CountVal) : Z := - count_of (snd e).

Definition numeric (e : jsstring * CountVal) : Prop :=
  exists n, snd e = Count n.

(** The sorted city table before it is cut to ten rows. *)
Definition citiesSorted (clientes : list Cliente)
  : list (jsstring * CountVal) :=
  Array_sort byValueDesc (Obj.entries (cityCount clientes)).

(* ------------------------------------------------------------------ *)
(** ** Further aggregates and rendering *)

(** [a || d] for an optional text [a]: the absent and the empty text
    are the falsy ones. *)
Definition or_text (a : option jsstring) (d : jsstring) : jsstring :=
  match a with
  | Some s => if Num.nonempty s then s else d
  | None => d
  end.

(** The key of [respCount]: the registration responsible, else the
    fidelization responsible, else the default label, trimmed. *)
Definition respLabel (c : Cliente) : jsstring :=
  Str.trim (or_text (responsavelCadastramento c)
              (or_text (responsavelFidelizacao c) NaoInformado)).

Definition respCount (clientes : list Cliente) : Obj.t CountVal :=
  fold_left (fun acc c => bump acc (respLabel c)) clientes [].

(** [Object.entries(respCount).map(([nome, total]) => ({ nome, total }))]:
    the rows are not sorted. *)
Definition respArray (clientes : list Cliente) : list (jsstring * CountVal) :=
  Obj.entries (respCount clientes).

(** [l.join(sep)] *)
Fixpoint join (sep : jsstring) (l : list jsstring) : jsstring :=
  match l with
  | [] => []
  | x :: l' =>
      match l' with
      | [] => x
      | _ :: _ => x ++ sep ++ join sep l'
      end
  end.

(** The pendency cell of the preview table: the labels joined by a comma
    and a space, or a dash when that text is empty. *)
Definition pendenciasCell (r : Cliente) : jsstring :=
  let t := join (js ", ") (match pendencias r with
                           | Some l => l
                           | None => []
                           end) in
  if Num.nonempty t then t else js "-".

(* ------------------------------------------------------------------ *)
(** ** Vocabulary of the further statements *)

(** A text of ASCII code units. *)
Definition is_ascii (s : jsstring) : bool := forallb (fun c => c <? 128)%N s.

(** On ASCII text the host maps the letters A..Z to a..z and decomposes
    nothing, as Unicode prescribes. *)
Definition ascii_host (h : Host) : Prop :=
  forall s, is_ascii s = true ->
            toLowerCase h s = ascii_lower s /\ normalizeNFD h s = s.

(** A pendency label as [splitPendencias] produces them. *)
Definition valid_label (p : jsstring) : Prop :=
  p <> [] /\ Str.trim p = p /\ forallb label_unit p = true.

(** An optional text without white space at either end. *)
Definition trimmed (a : option jsstring) : Prop :=
  match a with
  | Some s => Str.trim s = s
  | None => True
  end.

(** The sum of the counters of a table. *)
Definition table_total (o : list (jsstring * CountVal)) : Z :=
  fold_right (fun e s => count_of (snd e) + s) 0 o.

(** The column's header resolves to nothing. *)
Definition unresolved (h : Host) (col : jsstring * JSValue) : bool :=
  match mapHeaderToKey (normalizeHeader h (fst col)) with
  | None => true
  | Some _ => false
  end.

(** A value of the clock for which the fallback's difference and quotient
    are exact in binary64: [Date.now()] stays below 2^48 until beyond the
    year 10000. *)
Definition clock_range (now : Z) : Prop := 0 <= now < 2 ^ 48.

(** The time value of a Date object is within 8.64e15 ms of the epoch. *)
Definition time_range (t : Z) : Prop := Z.abs t <= 8640000000000000.

(* ================================================================== *)
(** * Properties *)

(** ** Strings *)

Lemma Str_eqb_eq : forall a b, Str.eqb a b = true <-> a = b.
Proof.
  intros a b. unfold Str.eqb.
  destruct (list_eq_dec N.eq_dec a b); split; congruence.
Qed.

Lemma Str_eqb_refl : forall a, Str.eqb a a = true.
Proof. intros a. apply Str_eqb_eq. reflexivity. Qed.

Lemma Str_eqb_neq : forall a b, Str.eqb a b = false <-> a <> b.
Proof.
  intros a b. unfold Str.eqb.
  destruct (list_eq_dec N.eq_dec a b); split; congruence.
Qed.

Lemma digit_not_space : forall c,
  Str.is_digit c = true -> Str.is_space c = false.
Proof.
  intros c H. unfold Str.is_digit in H. apply andb_prop in H.
  destruct H as [H1 H2]. apply N.leb_le in H1. apply N.leb_le in H2.
  unfold Str.is_space.
  repeat match goal with
         | |- (_ || _) = false => apply orb_false_intro
         | |- (_ && _) = false => apply andb_false_intro1
         | |- (_ =? _)%N = false => apply N.eqb_neq; lia
         | |- (_ <=? _)%N = false => apply N.leb_gt; lia
         end.
Qed.

Lemma drop_while_head : forall p c s,
  p c = false -> Str.drop_while p (c :: s) = c :: s.
Proof. intros p c s H. simpl. rewrite H. reflexivity. Qed.

Lemma drop_while_none : forall p s,
  forallb (fun c => negb (p c)) s = true -> Str.drop_while p s = s.
Proof.
  intros p [|c s] H; [reflexivity|].
  simpl in H. apply andb_prop in H. destruct H as [H _].
  apply drop_while_head. now apply negb_true_iff.
Qed.

Lemma forallb_rev : forall (A : Type) (p : A -> bool) l,
  forallb p (rev l) = forallb p l.
Proof.
  intros A p l. induction l as [|x l IH]; [reflexivity|].
  simpl. rewrite forallb_app, IH. simpl. rewrite andb_true_r. apply andb_comm.
Qed.

Lemma trim_no_space : forall s,
  forallb (fun c => negb (Str.is_space c)) s = true -> Str.trim s = s.
Proof.
  intros s H. unfold Str.trim.
  rewrite (drop_while_none _ s H).
  rewrite drop_while_none by (rewrite forallb_rev; exact H).
  apply rev_involutive.
Qed.

Lemma digits_no_space : forall s,
  forallb Str.is_digit s = true ->
  forallb (fun c => negb (Str.is_space c)) s = true.
Proof.
  intros s H. rewrite forallb_forall in *. intros c Hc.
  rewrite (digit_not_space c (H c Hc)). reflexivity.
Qed.

Lemma span_all : forall p s, forallb p s = true -> Str.span p s = (s, []).
Proof.
  intros p s. induction s as [|c s IH]; intros H; [reflexivity|].
  simpl in *. apply andb_prop in H. destruct H as [Hc Hs].
  rewrite Hc, (IH Hs). reflexivity.
Qed.

Lemma strip_non_digits_digits : forall s,
  forallb Str.is_digit (Str.strip_non_digits s) = true.
Proof.
  intros s. apply forallb_forall. intros c Hc.
  unfold Str.strip_non_digits in Hc. apply filter_In in Hc. tauto.
Qed.

(** ** Numbers *)

Lemma round_half_even_nonneg : forall num den,
  0 <= num -> 0 < den -> 0 <= Num.round_half_even num den.
Proof.
  intros num den Hn Hd. unfold Num.round_half_even.
  assert (0 <= num / den) by (apply Z.div_pos; assumption).
  repeat match goal with
         | |- context [if ?b then _ else _] => destruct b
         end; lia.
Qed.

Lemma round64_pos_nonneg : forall n d, nonneg (Num.round64_pos n d).
Proof.
  intros n d. unfold Num.round64_pos.
  destruct (0 <=? Num.ulp_exponent n d) eqn:Hu.
  - apply Z.leb_le in Hu.
    assert (Hp : 0 < 2 ^ Num.ulp_exponent n d) by (apply Z.pow_pos_nonneg; lia).
    assert (Hm : 0 <= Num.round_half_even (Z.pos n)
                        (Z.pos d * 2 ^ Num.ulp_exponent n d)).
    { apply round_half_even_nonneg; [lia|]. apply Z.mul_pos_pos; lia. }
    cbv zeta. destruct (2 ^ 1024 <=? _); [exact I|].
    unfold nonneg. change 0%Q with (inject_Z 0). rewrite <- Zle_Qle.
    apply Z.mul_nonneg_nonneg; lia.
  - apply Z.leb_gt in Hu. cbv zeta. unfold nonneg. rewrite Qred_correct.
    assert (Hm : 0 <= Num.round_half_even
                        (Z.pos n * 2 ^ (- Num.ulp_exponent n d)) (Z.pos d)).
    { apply round_half_even_nonneg; [|lia].
      apply Z.mul_nonneg_nonneg; [lia|apply Z.pow_nonneg; lia]. }
    unfold Qle. cbn [Qnum Qden]. lia.
Qed.

Lemma round64_nonneg : forall q, (0 <= Qnum q) -> nonneg (Num.round64 q).
Proof.
  intros [n d] H. simpl in H. unfold Num.round64. simpl.
  destruct n; simpl.
  - unfold Qle. simpl. lia.
  - apply round64_pos_nonneg.
  - lia.
Qed.

Lemma round64_pos_not_NaN : forall n d, Num.round64_pos n d <> NaN.
Proof.
  intros n d H. pose proof (round64_pos_nonneg n d) as Hn.
  rewrite H in Hn. exact Hn.
Qed.

Lemma round64_not_NaN : forall q, Num.isNaN (Num.round64 q) = false.
Proof.
  intros [n d]. unfold Num.round64. simpl. destruct n; simpl; [reflexivity| |].
  - pose proof (round64_pos_not_NaN p d).
    destruct (Num.round64_pos p d); simpl; congruence.
  - pose proof (round64_pos_not_NaN p d).
    destruct (Num.round64_pos p d); simpl; congruence.
Qed.

Lemma digits_val_nonneg : forall s acc,
  forallb Str.is_digit s = true -> 0 <= acc -> 0 <= Num.digits_val 10 acc s.
Proof.
  induction s as [|c s IH]; intros acc H Hacc; simpl; [exact Hacc|].
  simpl in H. apply andb_prop in H. destruct H as [Hc Hs].
  apply IH; [exact Hs|].
  unfold Str.is_digit in Hc. apply andb_prop in Hc. destruct Hc as [H1 H2].
  apply N.leb_le in H1. apply N.leb_le in H2.
  replace ((48 <=? Z.of_N c) && (Z.of_N c <=? 57)) with true
    by (symmetry; apply andb_true_intro; split; apply Z.leb_le; lia).
  lia.
Qed.

(** On a string of digits [Number] is the rounded decimal value, and on
    the empty string it is 0: it is never NaN and never negative. *)
Lemma Number_digits : forall s,
  forallb Str.is_digit s = true ->
  Number s = match s with
             | [] => Fin 0
             | _ => Num.round64 (inject_Z (Num.digits_val 10 0 s) * Num.pow10 0)
             end.
Proof.
  intros s H. unfold Number.
  rewrite (trim_no_space s (digits_no_space s H)).
  destruct s as [|c s]; [reflexivity|].
  assert (Hc : Str.is_digit c = true)
    by (simpl in H; apply andb_prop in H; tauto).
  assert (Hr : forall k, (k < 48 \/ 57 < k)%N -> (c =? k)%N = false).
  { intros k Hk. unfold Str.is_digit in Hc. apply andb_prop in Hc.
    destruct Hc as [H1 H2]. apply N.leb_le in H1. apply N.leb_le in H2.
    apply N.eqb_neq. lia. }
  assert (Hsigned :
            Num.parse_signed (c :: s)
            = Num.round64 (inject_Z (Num.digits_val 10 0 (c :: s))
                           * Num.pow10 0)).
  { unfold Num.parse_signed. rewrite !Hr by lia.
    unfold Num.parse_unsigned.
    replace (Str.eqb (c :: s) (js "Infinity")) with false.
    2:{ symmetry. apply Str_eqb_neq. intros E. inversion E; subst.
        discriminate Hc. }
    rewrite (span_all _ _ H). cbn [Num.nonempty orb Num.parse_exponent].
    rewrite app_nil_r. reflexivity. }
  unfold Num.parse_literal. destruct s as [|c2 s]; [exact Hsigned|].
  assert (Hc2 : Str.is_digit c2 = true).
  { simpl in H. apply andb_prop in H. destruct H as [_ H].
    apply andb_prop in H. tauto. }
  assert (Hr2 : forall k, (k < 48 \/ 57 < k)%N -> (c2 =? k)%N = false).
  { intros k Hk. unfold Str.is_digit in Hc2. apply andb_prop in Hc2.
    destruct Hc2 as [H1 H2]. apply N.leb_le in H1. apply N.leb_le in H2.
    apply N.eqb_neq. lia. }
  rewrite !Hr2 by lia. cbn [orb]. rewrite !andb_false_r. exact Hsigned.
Qed.

Lemma Number_digits_nonneg : forall s,
  forallb Str.is_digit s = true -> nonneg (Number s).
Proof.
  intros s H. rewrite (Number_digits s H). destruct s as [|c s].
  - unfold nonneg, Qle. simpl. lia.
  - apply round64_nonneg. change (Num.pow10 0) with 1%Q.
    unfold Qmult. cbn [Qnum inject_Z]. rewrite Z.mul_1_r.
    apply digits_val_nonneg; [exact H|lia].
Qed.

(** ** Header resolution *)

(** No key of [headerMap] is an array index, so [Object.keys] lists the
    keys in the order the literal writes them. *)
Lemma keys_headerMap : Obj.keys headerMap = map fst headerMap.
Proof. vm_compute. reflexivity. Qed.

Lemma headerMap_own : forall k f,
  In (k, f) headerMap -> Obj.get headerMap k = Obj.Own f.
Proof.
  intros k f Hin. unfold headerMap in Hin. simpl in Hin.
  repeat (destruct Hin as [Hin|Hin];
          [inversion Hin; subst; vm_compute; reflexivity|]).
  contradiction.
Qed.

Lemma scan_keys_find : forall normalized (o : Obj.t Key),
  (forall k f, In (k, f) o -> Obj.get headerMap k = Obj.Own f) ->
  scan_keys normalized (map fst o) =
  match find (fun e => Str.includes normalized (fst e)) o with
  | Some e => Some (Field (snd e))
  | None => None
  end.
Proof.
  intros normalized o. induction o as [|[k f] o IH]; intros Hown; simpl.
  - reflexivity.
  - destruct (Str.includes normalized k).
    + rewrite (Hown k f) by (left; reflexivity). reflexivity.
    + apply IH. intros k' f' Hin. apply Hown. right. exact Hin.
Qed.

(** Away from the names of the members of [Object.prototype], resolution
    is the exact entry of the table if there is one, else the entry of the
    first key, in the order of the literal, that occurs in the header, else
    nothing. *)
Lemma mapHeaderToKey_plain : forall normalized,
  Obj.inherited normalized = false ->
  mapHeaderToKey normalized =
  match Obj.own headerMap normalized with
  | Some f => Some (Field f)
  | None =>
      match first_substring_key normalized with
      | Some f => Some (Field f)
      | None => None
      end
  end.
Proof.
  intros normalized Hplain. unfold mapHeaderToKey, Obj.get.
  destruct (Obj.own headerMap normalized) as [f|]; [reflexivity|].
  rewrite Hplain, keys_headerMap, (scan_keys_find _ _ headerMap_own).
  unfold first_substring_key.
  destruct (find (fun e => Str.includes normalized (fst e)) headerMap);
    reflexivity.
Qed.

(** C4 (defect).  For the header [constructor] the table has no entry and no
    key of the table occurs in it, yet [mapHeaderToKey] does not return
    [undefined]: the read [headerMap[normalized]] finds the member that
    every object inherits, and returns it. *)
Theorem mapHeaderToKey_inherited_member :
  Obj.own headerMap (js "constructor") = None /\
  first_substring_key (js "constructor") = None /\
  mapHeaderToKey (js "constructor") = Some (ProtoMember (js "constructor")).
Proof. repeat split; vm_compute; reflexivity. Qed.

(** ** The overdue-days cell *)

(** The text left by the removal of the non-digits holds digits only, so
    [Number] never yields NaN on it and the branch that stores [null] is
    never taken. *)
Lemma coerceDias_number : forall h v,
  exists x, coerceDias h v = JVal x /\ nonneg x.
Proof.
  intros h v. unfold coerceDias.
  pose proof (Number_digits_nonneg _
                (strip_non_digits_digits (ToString h v))) as Hn.
  destruct (Number (Str.strip_non_digits (ToString h v))) as [| | |q] eqn:E;
    simpl in *; try contradiction.
  - exists PInf. split; [reflexivity|exact I].
  - exists (Fin q). split; [reflexivity|exact Hn].
Qed.

(** C2 (defect).  A cell without any digit is coerced to the number 0, not
    to [null]: the residue is the empty string, on which [Number] is 0. *)
Theorem coerceDias_without_digits : forall h,
  Str.strip_non_digits (js "abc") = [] /\
  coerceDias h (VStr (js "abc")) = JVal (Fin 0) /\
  coerceDias h (VStr []) = JVal (Fin 0).
Proof. intros h. repeat split; reflexivity. Qed.

(** ** Splitting the pendency cell *)

Lemma split_runs_from_pieces : forall p s b,
  Forall (fun piece => forallb (fun c => negb (p c)) piece = true)
         (Str.split_runs_from p b s).
Proof.
  intros p s. induction s as [|c s IH]; intros b; simpl.
  - constructor; [reflexivity|constructor].
  - destruct (p c) eqn:Hc.
    + destruct b; [apply IH|]. constructor; [reflexivity|apply IH].
    + specialize (IH false).
      destruct (Str.split_runs_from p false s) as [|piece rest].
      * constructor; [simpl; rewrite Hc; reflexivity|constructor].
      * inversion IH; subst. constructor; [|assumption].
        simpl. rewrite Hc. simpl. assumption.
Qed.

Lemma split_runs_from_concat : forall p s b,
  concat (Str.split_runs_from p b s) = filter (fun c => negb (p c)) s.
Proof.
  intros p s. induction s as [|c s IH]; intros b; simpl; [reflexivity|].
  destruct (p c) eqn:Hc; simpl.
  - destruct b; simpl; apply IH.
  - specialize (IH false).
    destruct (Str.split_runs_from p false s) as [|piece rest]; simpl in *.
    + rewrite <- IH. reflexivity.
    + rewrite <- IH. reflexivity.
Qed.

Lemma drop_while_suffix : forall p s,
  exists pre, s = pre ++ Str.drop_while p s.
Proof.
  intros p s. induction s as [|c s [pre IH]]; simpl.
  - exists []. reflexivity.
  - destruct (p c).
    + exists (c :: pre). simpl. rewrite <- IH. reflexivity.
    + exists []. reflexivity.
Qed.

Lemma drop_while_starts : forall p s c s',
  Str.drop_while p s = c :: s' -> p c = false.
Proof.
  intros p s. induction s as [|x s IH]; intros c s' H; simpl in H.
  - discriminate.
  - destruct (p x) eqn:Hx; [eapply IH; exact H|].
    inversion H; subst. exact Hx.
Qed.

Lemma drop_while_fixed : forall p s,
  Str.drop_while p (Str.drop_while p s) = Str.drop_while p s.
Proof.
  intros p s. destruct (Str.drop_while p s) as [|c s'] eqn:E; [reflexivity|].
  apply drop_while_head. eapply drop_while_starts. exact E.
Qed.

(** A trimmed string is a piece of the original. *)
Lemma trim_infix : forall s, exists pre post, s = pre ++ Str.trim s ++ post.
Proof.
  intros s. unfold Str.trim.
  destruct (drop_while_suffix Str.is_space s) as [pre Hpre].
  destruct (drop_while_suffix Str.is_space
              (rev (Str.drop_while Str.is_space s))) as [post Hpost].
  exists pre, (rev post).
  rewrite <- rev_app_distr, <- Hpost, rev_involutive. exact Hpre.
Qed.

(** Trimming a trimmed string changes nothing. *)
Lemma trim_trim : forall s, Str.trim (Str.trim s) = Str.trim s.
Proof.
  intros s. unfold Str.trim.
  set (a := Str.drop_while Str.is_space s).
  set (b := Str.drop_while Str.is_space (rev a)).
  assert (Ha : Str.drop_while Str.is_space a = a) by apply drop_while_fixed.
  assert (Hb : Str.drop_while Str.is_space b = b) by apply drop_while_fixed.
  assert (Hrb : Str.drop_while Str.is_space (rev b) = rev b).
  { destruct (drop_while_suffix Str.is_space (rev a)) as [pre Hpre].
    fold b in Hpre.
    assert (E : a = rev b ++ rev pre).
    { rewrite <- rev_app_distr, <- Hpre, rev_involutive. reflexivity. }
    destruct (rev b) as [|c r] eqn:Er; [reflexivity|].
    apply drop_while_head. rewrite E in Ha. simpl in Ha.
    destruct (Str.is_space c) eqn:Hc; [|reflexivity].
    exfalso.
    destruct (drop_while_suffix Str.is_space (r ++ rev pre)) as [pre' Hpre'].
    rewrite Ha in Hpre'.
    apply (f_equal (@length N)) in Hpre'.
    rewrite (length_app pre') in Hpre'. simpl in Hpre'. lia. }
  rewrite Hrb, rev_involutive, Hb. reflexivity.
Qed.

Lemma replace_unit_none : forall c s,
  c <> 32%N ->
  forallb (fun x => negb (x =? c)%N) (Str.replace_unit c s) = true.
Proof.
  intros c s Hc. apply forallb_forall. intros x Hx.
  unfold Str.replace_unit in Hx. apply in_map_iff in Hx.
  destruct Hx as [y [Hy _]]. destruct (y =? c)%N eqn:E; subst.
  - apply negb_true_iff, N.eqb_neq. congruence.
  - rewrite E. reflexivity.
Qed.

Lemma replace_unit_keeps : forall c k s,
  forallb (fun x => negb (x =? k)%N) s = true -> k <> 32%N ->
  forallb (fun x => negb (x =? k)%N) (Str.replace_unit c s) = true.
Proof.
  intros c k s H Hk. rewrite forallb_forall in *. intros x Hx.
  unfold Str.replace_unit in Hx. apply in_map_iff in Hx.
  destruct Hx as [y [Hy Hin]]. destruct (y =? c)%N; subst.
  - apply negb_true_iff, N.eqb_neq. congruence.
  - apply H. exact Hin.
Qed.

(** What may not occur in a pendency label: a separator or a line break. *)
Lemma trim_keeps_forallb : forall (p : N -> bool) s,
  forallb p s = true -> forallb p (Str.trim s) = true.
Proof.
  intros p s H. destruct (trim_infix s) as [pre [post E]].
  rewrite E in H. rewrite !forallb_app in H.
  apply andb_prop in H. destruct H as [_ H].
  apply andb_prop in H. tauto.
Qed.


(** Every label is non-empty, trimmed, and free of separators and line
    breaks. *)
Lemma splitPendencias_labels : forall h raw,
  Forall (fun p => p <> [] /\ Str.trim p = p /\ forallb label_unit p = true)
         (splitPendencias h raw).
Proof.
  intros h raw. unfold splitPendencias.
  destruct (truthy raw); simpl; [|constructor].
  set (s := Str.replace_unit 10%N (Str.replace_unit 13%N (ToString h raw))).
  apply Forall_forall. intros p Hp.
  apply filter_In in Hp. destruct Hp as [Hin Hne].
  apply in_map_iff in Hin. destruct Hin as [piece [Hp Hin]]. subst p.
  split; [|split].
  - intros E. rewrite E in Hne. discriminate.
  - apply trim_trim.
  - apply trim_keeps_forallb.
    assert (Hsep : forallb (fun c => negb (is_separator c)) piece = true).
    { pose proof (split_runs_from_pieces is_separator s false) as HF.
      rewrite Forall_forall in HF. apply HF. exact Hin. }
    assert (Hs10 : forallb (fun x => negb (x =? 10)%N) s = true).
    { apply replace_unit_none. discriminate. }
    assert (Hs13 : forallb (fun x => negb (x =? 13)%N) s = true).
    { apply replace_unit_keeps; [|discriminate].
      apply replace_unit_none. discriminate. }
    assert (Hsub : forall c, In c piece -> In c s).
    { intros c Hc.
      assert (Hcc : In c (concat (Str.split_runs_from is_separator false s))).
      { apply in_concat. exists piece. split; assumption. }
      rewrite split_runs_from_concat in Hcc. apply filter_In in Hcc. tauto. }
    rewrite forallb_forall in *. intros c Hc. unfold label_unit.
    rewrite (Hsep c Hc), (Hs10 c (Hsub c Hc)), (Hs13 c (Hsub c Hc)).
    reflexivity.
Qed.



(** ** Exact integer arithmetic in binary64 *)

Lemma Qred_inject_Z : forall n, Qred (inject_Z n) = inject_Z n.
Proof.
  intros n. unfold Qred, inject_Z.
  pose proof (Z.ggcd_correct_divisors n 1) as Hd.
  pose proof (Z.ggcd_gcd n 1) as Hg.
  destruct (Z.ggcd n 1) as [g [aa bb]]. simpl in *.
  rewrite Z.gcd_1_r in Hg. subst g. destruct Hd as [Ha Hb].
  assert (Ea : aa = n) by lia. assert (Eb : bb = 1) by lia.
  rewrite Ea, Eb. reflexivity.
Qed.

Lemma round_half_even_unit : forall n, Num.round_half_even n 1 = n.
Proof.
  intros n. unfold Num.round_half_even.
  rewrite Z.div_1_r, Z.mod_1_r. reflexivity.
Qed.

(** A positive integer below 2^53 is a binary64 value. *)
Lemma round64_pos_int : forall n,
  Z.pos n < 2 ^ 53 -> Num.round64_pos n 1 = Num.of_Z (Z.pos n).
Proof.
  intros n Hn. unfold Num.round64_pos.
  assert (Hl : 0 <= Z.log2 (Z.pos n) < 53).
  { split; [apply Z.log2_nonneg|]. apply Z.log2_lt_pow2; lia. }
  assert (Hu : Num.ulp_exponent n 1 = Z.log2 (Z.pos n) - 52).
  { unfold Num.ulp_exponent. change (Z.log2 1) with 0. rewrite Z.sub_0_r.
    destruct (0 <=? Z.log2 (Z.pos n)) eqn:E; [|apply Z.leb_gt in E; lia].
    pose proof (Z.log2_spec (Z.pos n) ltac:(lia)) as Hs.
    replace (Z.pos n <? 1 * 2 ^ Z.log2 (Z.pos n)) with false
      by (symmetry; apply Z.ltb_ge; lia).
    lia. }
  rewrite Hu.
  destruct (0 <=? Z.log2 (Z.pos n) - 52) eqn:E.
  - apply Z.leb_le in E. assert (Hz : Z.log2 (Z.pos n) - 52 = 0) by lia.
    rewrite Hz. cbv zeta. change (2 ^ 0) with 1. rewrite !Z.mul_1_r.
    rewrite round_half_even_unit.
    replace (2 ^ 1024 <=? Z.pos n) with false; [reflexivity|].
    symmetry. apply Z.leb_gt.
    apply Z.lt_trans with (2 ^ 53); [exact Hn|reflexivity].
  - cbv zeta. rewrite round_half_even_unit. unfold Num.of_Z.
    rewrite <- (Qred_inject_Z (Z.pos n)). f_equal. apply Qred_complete.
    apply Z.leb_gt in E.
    assert (Hp : 0 < 2 ^ (- (Z.log2 (Z.pos n) - 52)))
      by (apply Z.pow_pos_nonneg; lia).
    unfold Qeq, inject_Z. cbn [Qnum Qden]. rewrite Z2Pos.id by exact Hp.
    lia.
Qed.

Lemma round64_int : forall q,
  Qden q = 1%positive -> Z.abs (Qnum q) < 2 ^ 53 ->
  Num.round64 q = Num.of_Z (Qnum q).
Proof.
  intros [n d] Hd Hn. simpl in *. subst d. unfold Num.round64. simpl.
  destruct n as [|p|p].
  - reflexivity.
  - apply round64_pos_int. exact Hn.
  - rewrite round64_pos_int by exact Hn. unfold Num.neg, Num.of_Z.
    change (- inject_Z (Z.pos p))%Q with (inject_Z (Z.neg p)).
    rewrite Qred_inject_Z. reflexivity.
Qed.

Lemma sub_int : forall a b,
  Z.abs (a - b) < 2 ^ 53 ->
  Num.sub (Num.of_Z a) (Num.of_Z b) = Num.of_Z (a - b).
Proof.
  intros a b H. unfold Num.sub, Num.of_Z.
  rewrite round64_int; unfold Qminus, Qplus, Qopp, inject_Z; cbn [Qnum Qden].
  - replace (a * 1 + - b * 1) with (a - b) by lia. reflexivity.
  - reflexivity.
  - replace (a * 1 + - b * 1) with (a - b) by lia. exact H.
Qed.

Lemma mul_int : forall a b,
  Z.abs (a * b) < 2 ^ 53 ->
  Num.mul (Num.of_Z a) (Num.of_Z b) = Num.of_Z (a * b).
Proof.
  intros a b H. unfold Num.mul, Num.of_Z.
  rewrite round64_int; unfold Qmult, inject_Z; cbn [Qnum Qden].
  - reflexivity.
  - reflexivity.
  - exact H.
Qed.

Lemma Math_round_int : forall z, Num.Math_round (Num.of_Z z) = Num.of_Z z.
Proof.
  intros z. unfold Num.Math_round, Num.of_Z. f_equal. f_equal.
  unfold Qfloor, Qplus, inject_Z. cbn [Qnum Qden].
  change (1 * 2)%positive with 2%positive.
  symmetry. apply Z.div_unique with 1; lia.
Qed.

Lemma TimeClip_int : forall z,
  Z.abs z <= 8640000000000000 -> TimeClip (Num.of_Z z) = Some z.
Proof.
  intros z H. unfold TimeClip, Num.of_Z, Qle_bool, inject_Z, Num.trunc.
  cbn [Qnum Qden]. rewrite Z.quot_1_r.
  replace (-8640000000000000 * 1 <=? z * 1) with true
    by (symmetry; apply Z.leb_le; lia).
  replace (z * 1 <=? 8640000000000000 * 1) with true
    by (symmetry; apply Z.leb_le; lia).
  reflexivity.
Qed.

(** For an integral serial below 10^8 (the year 275760 is serial 100 640 249)
    the serial attempt computes [(k - 25569) * 86400 * 1000] without any
    rounding. *)
Lemma serial_ms_int : forall k,
  0 < k < 100000000 ->
  serial_ms (Num.of_Z k) = Num.of_Z ((k - 25569) * 86400 * 1000).
Proof.
  intros k Hk. unfold serial_ms.
  assert (H53 : 2 ^ 53 = 9007199254740992) by reflexivity.
  rewrite sub_int by lia.
  rewrite mul_int by lia.
  rewrite mul_int by lia.
  apply Math_round_int.
Qed.

(** ** Calendar arithmetic *)

Lemma DayFromYear_step : forall y,
  DateAlg.DayFromYear (y + 1) - DateAlg.DayFromYear y
  = if DateAlg.InLeapYear y then 366 else 365.
Proof.
  intros y. unfold DateAlg.DayFromYear, DateAlg.InLeapYear.
  destruct (Z.eqb_spec (y mod 4) 0) as [H4|H4];
    destruct (Z.eqb_spec (y mod 100) 0) as [H100|H100];
    destruct (Z.eqb_spec (y mod 400) 0) as [H400|H400];
    cbn [andb orb negb]; Z.div_mod_to_equations; lia.
Qed.

(** [YearFromDay] is the year whose span of days contains [d]. *)
Lemma YearFromDay_spec : forall d,
  DateAlg.DayFromYear (DateAlg.YearFromDay d) <= d
  < DateAlg.DayFromYear (DateAlg.YearFromDay d + 1).
Proof.
  intros d. unfold DateAlg.YearFromDay.
  set (y0 := 1970 + d * 400 / 146097).
  destruct (Z.ltb_spec d (DateAlg.DayFromYear y0)) as [H1|H1].
  - replace (y0 - 1 + 1) with y0 by lia. split; [|exact H1].
    unfold DateAlg.DayFromYear, y0. Z.div_mod_to_equations. lia.
  - destruct (Z.leb_spec (DateAlg.DayFromYear (y0 + 1)) d) as [H2|H2].
    + split; [exact H2|].
      unfold DateAlg.DayFromYear, y0. Z.div_mod_to_equations. lia.
    + split; assumption.
Qed.

Lemma YearFromDay_unique : forall y d,
  DateAlg.DayFromYear y <= d < DateAlg.DayFromYear (y + 1) ->
  DateAlg.YearFromDay d = y.
Proof.
  intros y d H. pose proof (YearFromDay_spec d) as S.
  set (yy := DateAlg.YearFromDay d) in *. clearbody yy.
  unfold DateAlg.DayFromYear in *. Z.div_mod_to_equations. lia.
Qed.

Lemma Day_of_midnight : forall d, DateAlg.Day (d * DateAlg.msPerDay) = d.
Proof. intros d. unfold DateAlg.Day. apply Z.div_mul. discriminate. Qed.

Lemma month_cases : forall m,
  0 <= m <= 11 ->
  m = 0 \/ m = 1 \/ m = 2 \/ m = 3 \/ m = 4 \/ m = 5 \/
  m = 6 \/ m = 7 \/ m = 8 \/ m = 9 \/ m = 10 \/ m = 11.
Proof. intros m H. lia. Qed.

(** Midnight of a civil date reads back as that date. *)
Lemma civil_fields : forall y m d,
  0 <= m <= 11 -> 1 <= d <= DaysInMonth (DateAlg.InLeapYear y) m ->
  let t := DateAlg.MakeDay y m d * DateAlg.msPerDay in
  DateAlg.YearFromTime t = y /\
  DateAlg.MonthFromTime t = m /\
  DateAlg.DateFromTime t = d.
Proof.
  intros y m d Hm Hd t.
  assert (Hday : DateAlg.Day t
                 = DateAlg.DayFromYear y
                   + DateAlg.DaysBeforeMonth (DateAlg.InLeapYear y) m + d - 1).
  { unfold t. rewrite Day_of_midnight. unfold DateAlg.MakeDay.
    rewrite Z.div_small, Z.mod_small, Z.add_0_r by lia. reflexivity. }
  assert (Hy : DateAlg.YearFromTime t = y).
  { unfold DateAlg.YearFromTime. rewrite Hday. apply YearFromDay_unique.
    pose proof (DayFromYear_step y) as Hs.
    destruct (month_cases m Hm)
      as [E|[E|[E|[E|[E|[E|[E|[E|[E|[E|[E|E]]]]]]]]]]];
      subst m; destruct (DateAlg.InLeapYear y);
      cbn [DateAlg.DaysBeforeMonth DaysInMonth] in *; lia. }
  assert (Hw : DateAlg.DayWithinYear t
               = DateAlg.DaysBeforeMonth (DateAlg.InLeapYear y) m + d - 1).
  { unfold DateAlg.DayWithinYear. rewrite Hy, Hday. lia. }
  assert (Hmo : DateAlg.MonthFromTime t = m).
  { unfold DateAlg.MonthFromTime. rewrite Hy, Hw.
    destruct (month_cases m Hm)
      as [E|[E|[E|[E|[E|[E|[E|[E|[E|[E|[E|E]]]]]]]]]]];
      subst m; destruct (DateAlg.InLeapYear y);
      cbn [DateAlg.DaysBeforeMonth DaysInMonth] in *;
      repeat match goal with
             | |- context [?a <? ?b] =>
                 destruct (Z.ltb_spec a b); try lia
             end. }
  split; [exact Hy|]. split; [exact Hmo|].
  unfold DateAlg.DateFromTime. rewrite Hy, Hmo, Hw. lia.
Qed.

(** ** Dates *)

Lemma parseDate_text : forall h v,
  truthy v = true \/ is_zero v = true ->
  (forall t, v <> VDate (mkDate (Some t))) ->
  parseDate h v = parseText h (Str.trim (ToString h v)).
Proof.
  intros h v Hv Hd. unfold parseDate.
  replace (negb (truthy v) && negb (is_zero v)) with false
    by (destruct Hv as [E|E]; rewrite E; simpl;
        [reflexivity|rewrite andb_false_r; reflexivity]).
  destruct v as [| | b | x | s | [[t|]]]; try reflexivity.
  exfalso. apply (Hd t). reflexivity.
Qed.

Lemma trim_nil : Str.trim [] = [].
Proof. reflexivity. Qed.

Lemma sub_one_isNaN : forall x,
  Num.isNaN (Num.sub x (Num.of_Z 1)) = Num.isNaN x.
Proof.
  intros [| | |q]; try reflexivity.
  unfold Num.sub, Num.of_Z. apply round64_not_NaN.
Qed.

(** The branch of [parseDate] for a text with three parts. *)
Lemma parseDate_three_parts : forall h s p0 p1 p2,
  Str.split_on 47%N (Str.trim s) = [p0; p1; p2] ->
  parseDate h (VStr s) =
  if negb (Num.isNaN (Number p0)) && negb (Num.isNaN (Number p1))
     && negb (Num.isNaN (Number p2)) && Num.gtb (Number p2) (Num.of_Z 1900)
  then JVal (new_Date_ymd h (Number p2)
               (Num.sub (Number p1) (Num.of_Z 1)) (Number p0))
  else JNull.
Proof.
  intros h s p0 p1 p2 Hs.
  assert (Hne : Str.trim s <> []) by (intros E; rewrite E in Hs; discriminate).
  assert (Hs0 : s <> []) by (intros E; subst s; apply Hne; reflexivity).
  rewrite parseDate_text.
  - unfold ToString, parseText.
    destruct (Str.trim s) as [|c r] eqn:Et; [congruence|].
    cbn [Num.nonempty negb]. rewrite Hs.
    cbn [length Nat.eqb nth]. rewrite sub_one_isNaN. reflexivity.
  - left. destruct s; [congruence|reflexivity].
  - intros t. discriminate.
Qed.

Lemma trunc_int : forall z, Num.trunc (inject_Z z) = z.
Proof.
  intros z. unfold Num.trunc, inject_Z. cbn [Qnum Qden]. apply Z.quot_1_r.
Qed.

Lemma gtb_int : forall a b, Num.gtb (Num.of_Z a) (Num.of_Z b) = (b <? a).
Proof.
  intros a b. unfold Num.gtb, Num.ltb, Num.of_Z, Qcompare, inject_Z.
  cbn [Qnum Qden]. rewrite !Z.mul_1_r. unfold Z.ltb.
  destruct (b ?= a); reflexivity.
Qed.

(** On a host where the local midnight of a civil date exists, the Date
    built from that date reads back as the same year, month and day. *)
Lemma new_Date_ymd_fields : forall h y m d,
  1900 < y <= 275000 -> 0 <= m <= 11 ->
  1 <= d <= DaysInMonth (DateAlg.InLeapYear y) m ->
  plain_local_time h (DateAlg.MakeDay y m d * DateAlg.msPerDay) ->
  let dt := new_Date_ymd h (Num.of_Z y) (Num.of_Z m) (Num.of_Z d) in
  getFullYear h dt = Num.of_Z y /\
  getMonth h dt = Num.of_Z m /\
  getDate h dt = Num.of_Z d.
Proof.
  intros h y m d Hy Hm Hd [Hoff Hback] dt.
  set (t := DateAlg.MakeDay y m d * DateAlg.msPerDay) in *.
  assert (Hdt : dt = mkDate (Some (t - LocalTZA h t false))).
  { unfold dt, new_Date_ymd, Num.of_Z, finite. rewrite !trunc_int.
    replace ((0 <=? y) && (y <=? 99)) with false
      by (symmetry; apply andb_false_intro2; apply Z.leb_gt; lia).
    fold t. f_equal.
    replace (Z.abs (t - LocalTZA h t false) <=? 8640000000000000) with true;
      [reflexivity|].
    symmetry. apply Z.leb_le.
    assert (Ht : - 8630000000000000 <= t <= 8630000000000000).
    { unfold t, DateAlg.MakeDay, DateAlg.msPerDay.
      rewrite Z.div_small, Z.mod_small, Z.add_0_r by lia.
      assert (0 <= DateAlg.DaysBeforeMonth (DateAlg.InLeapYear y) m <= 335).
      { destruct (month_cases m Hm)
          as [E|[E|[E|[E|[E|[E|[E|[E|[E|[E|[E|E]]]]]]]]]]];
          subst m; destruct (DateAlg.InLeapYear y);
          cbn [DateAlg.DaysBeforeMonth]; lia. }
      assert (d <= 31).
      { destruct (month_cases m Hm)
          as [E|[E|[E|[E|[E|[E|[E|[E|[E|[E|[E|E]]]]]]]]]]];
          subst m; destruct (DateAlg.InLeapYear y);
          cbn [DaysInMonth] in Hd; lia. }
      unfold DateAlg.DayFromYear. Z.div_mod_to_equations. lia. }
    unfold DateAlg.msPerDay in Hoff. lia. }
  destruct (civil_fields y m d Hm Hd) as [Fy [Fm Fd]]. fold t in Fy, Fm, Fd.
  rewrite Hdt. unfold getFullYear, getMonth, getDate, LocalTime.
  cbn [time_value]. rewrite Hback.
  replace (t - LocalTZA h t false + LocalTZA h t false) with t by lia.
  rewrite Fy, Fm, Fd. repeat split; reflexivity.
Qed.

(** The Date built from the integers of a civil date reads back as that
    date. *)
Lemma parseDate_civil_date : forall h s p0 p1 p2 DD MM YYYY,
  Str.split_on 47%N (Str.trim s) = [p0; p1; p2] ->
  Number p0 = Num.of_Z DD -> Number p1 = Num.of_Z MM ->
  Number p2 = Num.of_Z YYYY ->
  1900 < YYYY <= 275000 -> 1 <= MM <= 12 ->
  1 <= DD <= DaysInMonth (DateAlg.InLeapYear YYYY) (MM - 1) ->
  plain_local_time h
    (DateAlg.MakeDay YYYY (MM - 1) DD * DateAlg.msPerDay) ->
  exists dt,
    parseDate h (VStr s) = JVal dt /\
    getFullYear h dt = Num.of_Z YYYY /\
    getMonth h dt = Num.of_Z (MM - 1) /\
    getDate h dt = Num.of_Z DD.
Proof.
  intros h s p0 p1 p2 DD MM YYYY Hs E0 E1 E2 Hy Hm Hd Hl.
  exists (new_Date_ymd h (Num.of_Z YYYY) (Num.of_Z (MM - 1)) (Num.of_Z DD)).
  split.
  - rewrite (parseDate_three_parts h s p0 p1 p2 Hs), E0, E1, E2.
    cbn [Num.isNaN Num.of_Z negb andb].
    fold (Num.of_Z YYYY). rewrite gtb_int.
    replace (1900 <? YYYY) with true by (symmetry; apply Z.ltb_lt; lia).
    fold (Num.of_Z MM). rewrite sub_int; [reflexivity|].
    assert (H53 : 2 ^ 53 = 9007199254740992) by reflexivity. lia.
  - apply new_Date_ymd_fields; try assumption. lia.
Qed.

(** C5 (amended).  For a text with exactly three parts between slashes,
    [parseDate] rejects the input (returns [null]) when a part is not
    numeric or the year is at most 1900, and otherwise returns
    [new Date(YYYY, MM - 1, DD)].  That Date has day DD, month MM - 1 and
    year YYYY when the parts are the integers of a civil date (month 1 to
    12, day within the month, year up to 275000) whose local midnight
    exists on the host; so ["05/03/2022"] yields 5 March 2022.  A day or a
    month outside the calendar is not rejected, the constructor carries it
    over. *)
Theorem parseDate_day_month_year : forall h s p0 p1 p2,
  Str.split_on 47%N (Str.trim s) = [p0; p1; p2] ->
  (Num.isNaN (Number p0) = false -> Num.isNaN (Number p1) = false ->
   Num.isNaN (Number p2) = false ->
   Num.gtb (Number p2) (Num.of_Z 1900) = true ->
   parseDate h (VStr s)
   = JVal (new_Date_ymd h (Number p2)
             (Num.sub (Number p1) (Num.of_Z 1)) (Number p0))) /\
  (Num.isNaN (Number p0) = true \/ Num.isNaN (Number p1) = true \/
   Num.isNaN (Number p2) = true \/
   Num.gtb (Number p2) (Num.of_Z 1900) = false ->
   parseDate h (VStr s) = JNull) /\
  (forall DD MM YYYY,
     Number p0 = Num.of_Z DD -> Number p1 = Num.of_Z MM ->
     Number p2 = Num.of_Z YYYY ->
     1900 < YYYY <= 275000 -> 1 <= MM <= 12 ->
     1 <= DD <= DaysInMonth (DateAlg.InLeapYear YYYY) (MM - 1) ->
     plain_local_time h
       (DateAlg.MakeDay YYYY (MM - 1) DD * DateAlg.msPerDay) ->
     exists dt,
       parseDate h (VStr s) = JVal dt /\
       getFullYear h dt = Num.of_Z YYYY /\
       getMonth h dt = Num.of_Z (MM - 1) /\
       getDate h dt = Num.of_Z DD) /\
  (plain_local_time h (DateAlg.MakeDay 2022 2 5 * DateAlg.msPerDay) ->
   exists dt,
     parseDate h (VStr (js "05/03/2022")) = JVal dt /\
     getFullYear h dt = Num.of_Z 2022 /\
     getMonth h dt = Num.of_Z 2 /\
     getDate h dt = Num.of_Z 5).
Proof.
  intros h s p0 p1 p2 Hs.
  pose proof (parseDate_three_parts h s p0 p1 p2 Hs) as Hp.
  split; [|split; [|split]].
  - intros H0 H1 H2 Hy. rewrite Hp, H0, H1, H2, Hy. reflexivity.
  - intros H. rewrite Hp.
    destruct H as [H|[H|[H|H]]]; rewrite H; cbn [negb andb];
      rewrite ?andb_false_r; reflexivity.
  - intros DD MM YYYY E0 E1 E2 Hy Hm Hd Hl.
    apply (parseDate_civil_date h s p0 p1 p2 DD MM YYYY); assumption.
  - intros Hl.
    apply (parseDate_civil_date h (js "05/03/2022")
             (js "05") (js "03") (js "2022") 5 3 2022);
      try reflexivity; try exact Hl; try lia.
    vm_compute. split; discriminate.
Qed.

Lemma parseDate_day_month_year_witness :
  Str.split_on 47%N (Str.trim (js " 05/03/2022 "))
  = [js "05"; js "03"; js "2022"] /\
  plain_local_time utcHost (DateAlg.MakeDay 2022 2 5 * DateAlg.msPerDay) /\
  exists dt,
    parseDate utcHost (VStr (js " 05/03/2022 ")) = JVal dt /\
    getFullYear utcHost dt = Num.of_Z 2022 /\
    getMonth utcHost dt = Num.of_Z 2 /\
    getDate utcHost dt = Num.of_Z 5.
Proof.
  assert (Hl : plain_local_time utcHost
                 (DateAlg.MakeDay 2022 2 5 * DateAlg.msPerDay)).
  { split; [vm_compute; discriminate|reflexivity]. }
  split; [reflexivity|]. split; [exact Hl|].
  destruct (parseDate_day_month_year utcHost (js " 05/03/2022 ")
              (js "05") (js "03") (js "2022") eq_refl) as [_ [_ [H _]]].
  apply (H 5 3 2022); try reflexivity; try exact Hl; try lia.
  vm_compute. split; discriminate.
Defined.

(** C5 fails as stated: the three parts of ["31/02/2022"] are numeric and
    the year exceeds 1900, yet the Date returned is not day 31 of month 1.
    February 2022 has 28 days and the constructor carries the excess over,
    to 3 March 2022. *)
Lemma parseDate_day_carried_over :
  Str.split_on 47%N (Str.trim (js "31/02/2022"))
  = [js "31"; js "02"; js "2022"] /\
  Number (js "31") = Num.of_Z 31 /\
  Number (js "02") = Num.of_Z 2 /\
  Number (js "2022") = Num.of_Z 2022 /\
  exists dt,
    parseDate utcHost (VStr (js "31/02/2022")) = JVal dt /\
    getFullYear utcHost dt = Num.of_Z 2022 /\
    getMonth utcHost dt = Num.of_Z 2 /\
    getDate utcHost dt = Num.of_Z 3 /\
    getMonth utcHost dt <> Num.of_Z (2 - 1) /\
    getDate utcHost dt <> Num.of_Z 31.
Proof.
  do 4 (split; [reflexivity|]).
  exists (mkDate (Some 1646265600000)).
  do 4 (split; [reflexivity|]).
  split; vm_compute; discriminate.
Qed.

Lemma parseText_serial : forall h s,
  s <> [] -> length (Str.split_on 47%N s) <> 3%nat ->
  iso_attempt h s = None ->
  parseText h s =
  match serial_attempt h s with
  | Some dt => JVal dt
  | None => JNull
  end.
Proof.
  intros h s Hs Hl Hi. unfold parseText.
  destruct s as [|c r]; [congruence|]. cbn [Num.nonempty negb].
  replace (length (Str.split_on 47%N (c :: r)) =? 3)%nat with false
    by (symmetry; apply Nat.eqb_neq; exact Hl).
  rewrite Hi. reflexivity.
Qed.

(** The attempt with [Date.parse] comes first: a text that the host's
    [Date.parse] accepts with a year above 1900 never gets to the serial
    attempt. *)
Lemma parseDate_iso_first : forall h v dt,
  truthy v = true \/ is_zero v = true ->
  (forall t, v <> VDate (mkDate (Some t))) ->
  Str.trim (ToString h v) <> [] ->
  length (Str.split_on 47%N (Str.trim (ToString h v))) <> 3%nat ->
  iso_attempt h (Str.trim (ToString h v)) = Some dt ->
  parseDate h v = JVal dt.
Proof.
  intros h v dt Hv Hd Hne Hl Hi. rewrite parseDate_text by assumption.
  unfold parseText. destruct (Str.trim (ToString h v)) as [|c r] eqn:E;
    [congruence|].
  cbn [Num.nonempty negb].
  replace (length (Str.split_on 47%N (c :: r)) =? 3)%nat with false
    by (symmetry; apply Nat.eqb_neq; exact Hl).
  rewrite Hi. reflexivity.
Qed.

(** The local year of serial 44000 wherever the offset of local time is
    at most one day. *)
Lemma year_of_serial_44000 : forall off,
  Z.abs off <= DateAlg.msPerDay ->
  DateAlg.YearFromTime (1592438400000 + off) = 2020.
Proof.
  intros off H. unfold DateAlg.YearFromTime. apply YearFromDay_unique.
  change (DateAlg.DayFromYear 2020) with 18262.
  change (DateAlg.DayFromYear (2020 + 1)) with 18628.
  unfold DateAlg.Day, DateAlg.msPerDay in *.
  Z.div_mod_to_equations. lia.
Qed.

(** X23.  When a value gets as far as the serial attempt of [parseDate] and
    its text is a number [n > 0], the result is the Date of time value
    [Math.round((n - 25569) * 86400 * 1000)], kept only if its local year
    exceeds 1900 (otherwise, and for other texts, [null]).  For an integral
    serial [k] that time value is exactly [(k - 25569) * 86400 * 1000].  In
    particular the text ["44000"], when it reaches the serial attempt,
    gives the time value 1 592 438 400 000, a date of the year 2020. *)
Theorem parseDate_serial : forall h v s,
  reaches_serial h v s ->
  (Num.isNaN (Number s) = false -> Num.gtb (Number s) (Num.of_Z 0) = true ->
   parseDate h v
   = if Num.gtb (getFullYear h (new_Date_value (serial_ms (Number s))))
                (Num.of_Z 1900)
     then JVal (new_Date_value (serial_ms (Number s)))
     else JNull) /\
  (Num.isNaN (Number s) = true \/ Num.gtb (Number s) (Num.of_Z 0) = false ->
   parseDate h v = JNull) /\
  (forall k, Number s = Num.of_Z k -> 0 < k < 100000000 ->
   new_Date_value (serial_ms (Number s))
   = mkDate (Some ((k - 25569) * 86400 * 1000))) /\
  (s = js "44000" ->
   (forall t, Z.abs (LocalTZA h t true) <= DateAlg.msPerDay) ->
   parseDate h v = JVal (mkDate (Some 1592438400000)) /\
   getFullYear h (mkDate (Some 1592438400000)) = Num.of_Z 2020).
Proof.
  intros h v s [Hv [Hd [Hs [Hne [Hl Hi]]]]].
  assert (Hp : parseDate h v = match serial_attempt h s with
                               | Some dt => JVal dt
                               | None => JNull
                               end).
  { rewrite parseDate_text by assumption. rewrite <- Hs.
    apply parseText_serial; assumption. }
  assert (Hk : forall k, Number s = Num.of_Z k -> 0 < k < 100000000 ->
               new_Date_value (serial_ms (Number s))
               = mkDate (Some ((k - 25569) * 86400 * 1000))).
  { intros k E Hk. rewrite E, serial_ms_int by exact Hk.
    unfold new_Date_value. rewrite TimeClip_int; [reflexivity|lia]. }
  split; [|split; [|split]].
  - intros Hn Hg. rewrite Hp. unfold serial_attempt. cbv zeta.
    rewrite Hn, Hg. cbn [negb andb]. fold (serial_ms (Number s)).
    destruct (Num.gtb (getFullYear h (new_Date_value (serial_ms (Number s))))
                      (Num.of_Z 1900)); reflexivity.
  - intros H. rewrite Hp. unfold serial_attempt. cbv zeta.
    destruct H as [H|H]; rewrite H; cbn [negb andb];
      rewrite ?andb_false_r; reflexivity.
  - exact Hk.
  - intros E Htz.
    assert (Hy : getFullYear h (mkDate (Some 1592438400000)) = Num.of_Z 2020).
    { unfold getFullYear, LocalTime. cbn [time_value].
      rewrite year_of_serial_44000 by apply Htz. reflexivity. }
    split; [|exact Hy].
    rewrite Hp. unfold serial_attempt. cbv zeta. fold (serial_ms (Number s)).
    assert (En : Number s = Num.of_Z 44000) by (rewrite E; reflexivity).
    rewrite (Hk 44000 En) by lia. rewrite En.
    change ((44000 - 25569) * 86400 * 1000) with 1592438400000.
    rewrite Hy. reflexivity.
Qed.

Lemma parseDate_serial_witness :
  reaches_serial utcHost (VStr (js "44000")) (js "44000") /\
  parseDate utcHost (VStr (js "44000")) = JVal (mkDate (Some 1592438400000)).
Proof.
  assert (R : reaches_serial utcHost (VStr (js "44000")) (js "44000")).
  { unfold reaches_serial. split; [left; reflexivity|].
    split; [intros t; discriminate|]. split; [reflexivity|].
    split; [discriminate|]. split; [vm_compute; discriminate|reflexivity]. }
  split; [exact R|].
  destruct (parseDate_serial utcHost (VStr (js "44000")) (js "44000") R)
    as [_ [_ [_ H]]].
  apply H; [reflexivity|]. intros t. vm_compute. discriminate.
Defined.

(** C6 (defect).  The attempt with [Date.parse] comes before the serial
    attempt, so a numeric text that the host's [Date.parse] accepts, with a
    year above 1900, never gets to the serial attempt: [parseDate] returns
    the Date of [Date.parse], which is not the Date of the serial formula
    unless the two time values happen to coincide.  On a host that reads
    a lone number as a year, as V8 does, ["44000"] and the number 44000
    give a date of the year 44000, not of 2020. *)
Theorem parseDate_serial_unreached : forall h v s t,
  truthy v = true \/ is_zero v = true ->
  (forall t', v <> VDate (mkDate (Some t'))) ->
  s = Str.trim (ToString h v) -> s <> [] ->
  length (Str.split_on 47%N s) <> 3%nat ->
  Date_parse h s = Num.of_Z t -> Z.abs t <= 8640000000000000 ->
  1900 < DateAlg.YearFromTime (LocalTime h t) ->
  ~ reaches_serial h v s /\
  parseDate h v = JVal (mkDate (Some t)) /\
  (forall k,
     Number s = Num.of_Z k -> 0 < k < 100000000 ->
     t <> (k - 25569) * 86400 * 1000 ->
     parseDate h v <> JVal (new_Date_value (serial_ms (Number s)))).
Proof.
  intros h v s t Hv Hd Hs Hne Hl Hp Ht Hy.
  assert (Hi : iso_attempt h s = Some (mkDate (Some t))).
  { unfold iso_attempt. cbv zeta. rewrite Hp.
    cbn [Num.isNaN Num.of_Z negb]. fold (Num.of_Z t).
    unfold new_Date_value. rewrite TimeClip_int by exact Ht.
    unfold getFullYear. cbn [time_value]. rewrite gtb_int.
    replace (1900 <? DateAlg.YearFromTime (LocalTime h t)) with true
      by (symmetry; apply Z.ltb_lt; exact Hy).
    reflexivity. }
  assert (Hr : parseDate h v = JVal (mkDate (Some t))).
  { subst s. apply parseDate_iso_first; assumption. }
  split; [|split; [exact Hr|]].
  - intros [_ [_ [_ [_ [_ Hi']]]]]. rewrite Hi in Hi'. discriminate.
  - intros k Ek Hk Hne' Heq. rewrite Hr, Ek in Heq.
    rewrite serial_ms_int in Heq by exact Hk.
    unfold new_Date_value in Heq. rewrite TimeClip_int in Heq by lia.
    apply Hne'. congruence.
Qed.

Lemma parseDate_serial_unreached_witness :
  Date_parse yearHost (js "44000") = Num.of_Z 1326338668800000 /\
  parseDate yearHost (VStr (js "44000"))
  = JVal (mkDate (Some 1326338668800000)) /\
  parseDate yearHost (VNum (Num.of_Z 44000))
  = JVal (mkDate (Some 1326338668800000)) /\
  getFullYear yearHost (mkDate (Some 1326338668800000)) = Num.of_Z 44000 /\
  parseDate yearHost (VStr (js "44000"))
  <> JVal (new_Date_value (serial_ms (Number (js "44000")))).
Proof.
  assert (Hy : 1900 < DateAlg.YearFromTime
                        (LocalTime yearHost 1326338668800000))
    by (vm_compute; reflexivity).
  assert (Hl : length (Str.split_on 47%N (js "44000")) <> 3%nat)
    by (vm_compute; discriminate).
  assert (Ht : Z.abs 1326338668800000 <= 8640000000000000)
    by (vm_compute; discriminate).
  split; [reflexivity|].
  destruct (parseDate_serial_unreached yearHost (VStr (js "44000"))
              (js "44000") 1326338668800000 (or_introl eq_refl)
              ltac:(intros t'; discriminate) eq_refl
              ltac:(discriminate) Hl eq_refl Ht Hy) as [_ [Hs Hk]].
  destruct (parseDate_serial_unreached yearHost (VNum (Num.of_Z 44000))
              (js "44000") 1326338668800000 (or_introl eq_refl)
              ltac:(intros t'; discriminate) eq_refl
              ltac:(discriminate) Hl eq_refl Ht Hy) as [_ [Hn _]].
  split; [exact Hs|]. split; [exact Hn|]. split; [reflexivity|].
  apply (Hk 44000); [reflexivity|lia|lia].
Defined.

(** ** Row mapping *)

Lemma mapColumn_pendencias : forall h out col,
  pendencias (mapColumn h out col) =
  if resolves_to h K_pendencias col then Some (splitPendencias h (snd col))
  else pendencias out.
Proof.
  intros h out [hd v]. unfold mapColumn, resolves_to. cbn [fst snd].
  destruct (mapHeaderToKey (normalizeHeader h hd)) as [[k|name]|];
    [destruct k|..]; reflexivity.
Qed.

Lemma mapColumn_diasAtrasado : forall h out col,
  diasAtrasado (mapColumn h out col) =
  if resolves_to h K_diasAtrasado col then Some (coerceDias h (snd col))
  else diasAtrasado out.
Proof.
  intros h out [hd v]. unfold mapColumn, resolves_to. cbn [fst snd].
  destruct (mapHeaderToKey (normalizeHeader h hd)) as [[k|name]|];
    [destruct k|..]; reflexivity.
Qed.

(** After a sequence of columns a field holds what the last column that
    resolves to it stored. *)
Lemma fold_mapColumn_pendencias : forall h cols out,
  pendencias (fold_left (mapColumn h) cols out) =
  match find (resolves_to h K_pendencias) (rev cols) with
  | Some col => Some (splitPendencias h (snd col))
  | None => pendencias out
  end.
Proof.
  intros h cols. induction cols as [|col cols IH] using rev_ind; intros out.
  - reflexivity.
  - rewrite fold_left_app, rev_app_distr. cbn [fold_left rev app find].
    rewrite mapColumn_pendencias.
    destruct (resolves_to h K_pendencias col); [reflexivity|apply IH].
Qed.

Lemma fold_mapColumn_diasAtrasado : forall h cols out,
  diasAtrasado (fold_left (mapColumn h) cols out) =
  match find (resolves_to h K_diasAtrasado) (rev cols) with
  | Some col => Some (coerceDias h (snd col))
  | None => diasAtrasado out
  end.
Proof.
  intros h cols. induction cols as [|col cols IH] using rev_ind; intros out.
  - reflexivity.
  - rewrite fold_left_app, rev_app_distr. cbn [fold_left rev app find].
    rewrite mapColumn_diasAtrasado.
    destruct (resolves_to h K_diasAtrasado col); [reflexivity|apply IH].
Qed.

Lemma overdueFallback_pendencias : forall now out,
  pendencias (overdueFallback now out) = pendencias out.
Proof.
  intros now out. unfold overdueFallback.
  destruct (diasAtrasado out) as [[|x]|];
    destruct (dataLimiteProtocolo out) as [[|[[t|]]]|]; reflexivity.
Qed.

Lemma mapRow_pendencias_last : forall h now row,
  pendencias (mapRow h now row) =
  match find (resolves_to h K_pendencias) (rev (Obj.entries row)) with
  | Some col => Some (splitPendencias h (snd col))
  | None => None
  end.
Proof.
  intros h now row. unfold mapRow, mapColumns.
  rewrite overdueFallback_pendencias. apply fold_mapColumn_pendencias.
Qed.

(** C3 (amended).  The [pendencias] field of a mapped record is never
    [null]: it is the list split from the last column whose header resolves
    to [pendencias], and it is absent when no column does. *)
Theorem mapRow_pendencias : forall h now row,
  pendencias (mapRow h now row) =
  match find (resolves_to h K_pendencias) (rev (Obj.entries row)) with
  | Some col => Some (splitPendencias h (snd col))
  | None => None
  end.
Proof. exact mapRow_pendencias_last. Qed.

(** C3 fails as stated: a row without a pendency column is mapped to a
    record whose [pendencias] field is absent. *)
Lemma mapRow_pendencias_absent :
  pendencias (mapRow utcHost 0 [(js "Nome", VStr (js "Ana"))]) = None.
Proof. vm_compute. reflexivity. Qed.

(** What the columns leave in [diasAtrasado] is absent or a number that is
    not negative; it is never [null]. *)
Lemma mapColumns_diasAtrasado : forall h row,
  diasAtrasado (mapColumns h row) = None \/
  exists x, diasAtrasado (mapColumns h row) = Some (JVal x) /\ nonneg x.
Proof.
  intros h row. unfold mapColumns. rewrite fold_mapColumn_diasAtrasado.
  destruct (find _ _) as [col|]; [right|left; reflexivity].
  destruct (coerceDias_number h (snd col)) as [x [E Hx]].
  exists x. rewrite E. split; [reflexivity|exact Hx].
Qed.

Lemma max0_div : forall a, (if 0 <? a then a else 0) = Z.max 0 a.
Proof. intros a. destruct (Z.ltb_spec 0 a); lia. Qed.

(** C8.  After the columns of a row are processed, if [diasAtrasado] is
    absent or [null] and [dataLimiteProtocolo] is a date of time value [t],
    the mapper stores [max(0, floor((now - t) / 1 day))], which is never
    negative and is 10 when the deadline is ten days before [now]; a number
    already stored is kept, and a column that resolves to [diasAtrasado]
    always stores one. *)
Theorem mapRow_overdue : forall h now row,
  (forall t,
     diasAtrasado (mapColumns h row) = None \/
     diasAtrasado (mapColumns h row) = Some JNull ->
     dataLimiteProtocolo (mapColumns h row) = Some (JVal (mkDate (Some t))) ->
     diasAtrasado (mapRow h now row)
     = Some (JVal (Num.of_Z (Z.max 0 ((now - t) / DateAlg.msPerDay)))) /\
     0 <= Z.max 0 ((now - t) / DateAlg.msPerDay) /\
     (t = now - 10 * DateAlg.msPerDay ->
      diasAtrasado (mapRow h now row) = Some (JVal (Num.of_Z 10)))) /\
  (forall x,
     diasAtrasado (mapColumns h row) = Some (JVal x) ->
     diasAtrasado (mapRow h now row) = Some (JVal x)) /\
  (forall col,
     In col (Obj.entries row) -> resolves_to h K_diasAtrasado col = true ->
     exists x, diasAtrasado (mapColumns h row) = Some (JVal x) /\
               diasAtrasado (mapRow h now row) = Some (JVal x)).
Proof.
  intros h now row.
  assert (Hkeep : forall x,
            diasAtrasado (mapColumns h row) = Some (JVal x) ->
            diasAtrasado (mapRow h now row) = Some (JVal x)).
  { intros x E. unfold mapRow, overdueFallback. rewrite E. exact E. }
  split; [|split].
  - intros t Hd Hp.
    assert (E : diasAtrasado (mapRow h now row)
                = Some (JVal (Num.of_Z
                                (Z.max 0 ((now - t) / DateAlg.msPerDay))))).
    { unfold mapRow, overdueFallback. rewrite Hp. cbn [time_value].
      change (1000 * 60 * 60 * 24) with DateAlg.msPerDay.
      destruct Hd as [Hd|Hd]; rewrite Hd; cbn [diasAtrasado set_diasAtrasado];
        rewrite max0_div; reflexivity. }
    split; [exact E|]. split; [lia|].
    intros Ht. rewrite E. subst t.
    replace (now - (now - 10 * DateAlg.msPerDay)) with (10 * DateAlg.msPerDay)
      by lia.
    rewrite Z.div_mul by discriminate. reflexivity.
  - exact Hkeep.
  - intros col Hin Hres. unfold mapColumns at 1.
    rewrite fold_mapColumn_diasAtrasado.
    destruct (find (resolves_to h K_diasAtrasado) (rev (Obj.entries row)))
      as [c|] eqn:Ef.
    + destruct (coerceDias_number h (snd c)) as [x [E _]].
      exists x. assert (Hx : diasAtrasado (mapColumns h row) = Some (JVal x)).
      { unfold mapColumns. rewrite fold_mapColumn_diasAtrasado, Ef, E.
        reflexivity. }
      split; [rewrite E; reflexivity|apply Hkeep; exact Hx].
    + exfalso. apply in_rev in Hin.
      rewrite (find_none _ _ Ef col Hin) in Hres. discriminate.
Qed.

Lemma mapRow_overdue_witness :
  diasAtrasado (mapColumns utcHost
                  [(js "Data limite para protocolo", VStr (js "05/03/2022"))])
  = None /\
  dataLimiteProtocolo
    (mapColumns utcHost
       [(js "Data limite para protocolo", VStr (js "05/03/2022"))])
  = Some (JVal (mkDate (Some 1646438400000))) /\
  diasAtrasado
    (mapRow utcHost (1646438400000 + 10 * 86400000 + 5000)
       [(js "Data limite para protocolo", VStr (js "05/03/2022"))])
  = Some (JVal (Num.of_Z 10)).
Proof.
  split; [reflexivity|]. split; [reflexivity|].
  destruct (mapRow_overdue utcHost (1646438400000 + 10 * 86400000 + 5000)
              [(js "Data limite para protocolo", VStr (js "05/03/2022"))])
    as [H _].
  destruct (H 1646438400000 (or_introl eq_refl) eq_refl) as [E _].
  rewrite E. reflexivity.
Defined.

(** C10.  Whenever the [diasAtrasado] field of a mapped record is a number,
    that number is not negative (and not NaN): the coercion parses a text
    of digits only, and the fallback stores a difference clamped at 0. *)
Theorem mapRow_diasAtrasado_nonneg : forall h now row x,
  diasAtrasado (mapRow h now row) = Some (JVal x) -> nonneg x.
Proof.
  intros h now row x. unfold mapRow, overdueFallback.
  destruct (mapColumns_diasAtrasado h row) as [E|[y [E Hy]]]; rewrite E.
  - destruct (dataLimiteProtocolo (mapColumns h row)) as [[|[[t|]]]|];
      cbn [diasAtrasado set_diasAtrasado time_value]; rewrite ?E;
      try discriminate.
    + intros H. inversion H; subst. rewrite max0_div. unfold nonneg, Num.of_Z.
      change 0%Q with (inject_Z 0). rewrite <- Zle_Qle. lia.
    + intros H. inversion H; subst. unfold nonneg, Num.of_Z.
      change 0%Q with (inject_Z 0). rewrite <- Zle_Qle. lia.
  - rewrite E. intros H. inversion H; subst. exact Hy.
Qed.

Lemma mapRow_diasAtrasado_nonneg_witness :
  diasAtrasado
    (mapRow utcHost 0
       [(js "Quantos dias esta atrasado", VStr (js "-5 dias"))])
  = Some (JVal (Fin 5)) /\
  nonneg (Fin 5).
Proof.
  split; [reflexivity|].
  apply (mapRow_diasAtrasado_nonneg utcHost 0
           [(js "Quantos dias esta atrasado", VStr (js "-5 dias"))]).
  reflexivity.
Defined.

(** ** Tables *)

Lemma own_cons : forall (V : Type) (e : jsstring * V) o k,
  Obj.own (e :: o) k = if Str.eqb (fst e) k then Some (snd e) else Obj.own o k.
Proof.
  intros V e o k. unfold Obj.own. cbn [find].
  destruct (Str.eqb (fst e) k); reflexivity.
Qed.

Lemma own_None_iff : forall (V : Type) (o : Obj.t V) k,
  Obj.own o k = None <-> ~ In k (map fst o).
Proof.
  intros V o k. induction o as [|e o IH].
  - split; [intros _ []|reflexivity].
  - rewrite own_cons. simpl. destruct (Str.eqb (fst e) k) eqn:E.
    + apply Str_eqb_eq in E. split; [discriminate|]. intros H. exfalso.
      apply H. left. exact E.
    + apply Str_eqb_neq in E. rewrite IH. tauto.
Qed.

Lemma own_In : forall (V : Type) (o : Obj.t V) k v,
  Obj.own o k = Some v -> In (k, v) o.
Proof.
  intros V o k v. induction o as [|[k' v'] o IH]; [discriminate|].
  rewrite own_cons. cbn [fst snd]. destruct (Str.eqb k' k) eqn:E.
  - apply Str_eqb_eq in E. intros H. inversion H; subst. left. reflexivity.
  - intros H. right. apply IH. exact H.
Qed.

Lemma In_own : forall (V : Type) (o : Obj.t V) k v,
  NoDup (map fst o) -> In (k, v) o -> Obj.own o k = Some v.
Proof.
  intros V o k v.
  induction o as [|[k' v'] o IH]; intros Hnd Hin; [destruct Hin|].
  simpl in Hnd. inversion Hnd as [|? ? Hnot Hnd']; subst.
  rewrite own_cons. cbn [fst snd]. destruct Hin as [E|Hin].
  - inversion E; subst. rewrite Str_eqb_refl. reflexivity.
  - destruct (Str.eqb k' k) eqn:E.
    + apply Str_eqb_eq in E. subst k'. exfalso. apply Hnot.
      apply in_map_iff. exists (k, v). split; [reflexivity|exact Hin].
    + apply IH; assumption.
Qed.

Lemma map_fst_replace : forall (V : Type) (o : Obj.t V) k v,
  map fst (Obj.replace o k v) = map fst o.
Proof.
  intros V o k v. induction o as [|e o IH]; [reflexivity|].
  simpl. destruct (Str.eqb (fst e) k) eqn:E; simpl.
  - apply Str_eqb_eq in E. rewrite E. reflexivity.
  - rewrite IH. reflexivity.
Qed.

Lemma own_replace : forall (V : Type) (o : Obj.t V) k v k',
  Obj.own (Obj.replace o k v) k' =
  if Str.eqb k k' then match Obj.own o k with
                       | Some _ => Some v
                       | None => None
                       end
  else Obj.own o k'.
Proof.
  intros V o k v k'. induction o as [|e o IH]; simpl.
  - destruct (Str.eqb k k'); reflexivity.
  - destruct (Str.eqb (fst e) k) eqn:E.
    + apply Str_eqb_eq in E. rewrite !own_cons. cbn [fst snd]. rewrite E.
      rewrite Str_eqb_refl. destruct (Str.eqb k k'); reflexivity.
    + rewrite !own_cons, IH. destruct (Str.eqb k k') eqn:E'.
      * apply Str_eqb_eq in E'. subst k'. rewrite E. reflexivity.
      * reflexivity.
Qed.

Lemma own_app_last : forall (V : Type) (o : Obj.t V) k v k',
  Obj.own (o ++ [(k, v)]) k' =
  match Obj.own o k' with
  | Some x => Some x
  | None => if Str.eqb k k' then Some v else None
  end.
Proof.
  intros V o k v k'. induction o as [|e o IH].
  - simpl. rewrite own_cons. reflexivity.
  - simpl. rewrite !own_cons, IH. destruct (Str.eqb (fst e) k'); reflexivity.
Qed.

Lemma map_fst_set : forall (V : Type) (o : Obj.t V) k v,
  map fst (Obj.set o k v) =
  match Obj.own o k with
  | Some _ => map fst o
  | None => if Str.eqb k (js "__proto__") then map fst o else map fst o ++ [k]
  end.
Proof.
  intros V o k v. unfold Obj.set. destruct (Obj.own o k).
  - apply map_fst_replace.
  - destruct (Str.eqb k (js "__proto__")); [reflexivity|].
    rewrite map_app. reflexivity.
Qed.

Lemma own_set_other : forall (V : Type) (o : Obj.t V) k v k',
  k <> k' -> Obj.own (Obj.set o k v) k' = Obj.own o k'.
Proof.
  intros V o k v k' Hne. apply Str_eqb_neq in Hne. unfold Obj.set.
  destruct (Obj.own o k).
  - rewrite own_replace, Hne. reflexivity.
  - destruct (Str.eqb k (js "__proto__")); [reflexivity|].
    rewrite own_app_last, Hne. destruct (Obj.own o k'); reflexivity.
Qed.

Lemma own_set_same : forall (V : Type) (o : Obj.t V) k v,
  Obj.inherited k = false -> Obj.own (Obj.set o k v) k = Some v.
Proof.
  intros V o k v Hk. unfold Obj.set. destruct (Obj.own o k) eqn:E.
  - rewrite own_replace, Str_eqb_refl, E. reflexivity.
  - replace (Str.eqb k (js "__proto__")) with false.
    + rewrite own_app_last, E, Str_eqb_refl. reflexivity.
    + symmetry. apply Str_eqb_neq. intros Ek. subst k. discriminate Hk.
Qed.

Lemma NoDup_set : forall (V : Type) (o : Obj.t V) k v,
  NoDup (map fst o) -> NoDup (map fst (Obj.set o k v)).
Proof.
  intros V o k v Hnd. rewrite map_fst_set. destruct (Obj.own o k) eqn:E.
  - exact Hnd.
  - destruct (Str.eqb k (js "__proto__")); [exact Hnd|].
    apply NoDup_app; [exact Hnd|repeat constructor; intros []|].
    intros x Hx [Hk|[]]. subst x.
    apply (proj1 (own_None_iff V o k) E). exact Hx.
Qed.

(** *** Counting *)

Lemma bump_set : forall acc k, exists v, bump acc k = Obj.set acc k v.
Proof.
  intros acc k. unfold bump.
  destruct (Obj.get acc k) as [[n|]| |]; eexists; reflexivity.
Qed.

Lemma bump_own_other : forall acc k k',
  k <> k' -> Obj.own (bump acc k) k' = Obj.own acc k'.
Proof.
  intros acc k k' Hne. destruct (bump_set acc k) as [v E]. rewrite E.
  apply own_set_other. exact Hne.
Qed.

Lemma bump_own_same : forall acc k,
  Obj.inherited k = false ->
  Obj.own (bump acc k) k =
  match Obj.own acc k with
  | Some (Count n) => Some (Count (n + 1))
  | Some Junk => Some Junk
  | None => Some (Count 1)
  end.
Proof.
  intros acc k Hk. unfold bump, Obj.get. rewrite Hk.
  destruct (Obj.own acc k) as [[n|]|]; rewrite own_set_same by exact Hk;
    try reflexivity.
  destruct (Z.eqb_spec n 0); [subst n|]; reflexivity.
Qed.

Lemma NoDup_bump : forall acc k,
  NoDup (map fst acc) -> NoDup (map fst (bump acc k)).
Proof.
  intros acc k H. destruct (bump_set acc k) as [v E]. rewrite E.
  apply NoDup_set. exact H.
Qed.

Lemma NoDup_fold_bump : forall labels acc,
  NoDup (map fst acc) -> NoDup (map fst (fold_left bump labels acc)).
Proof.
  induction labels as [|l labels IH]; intros acc H; [exact H|].
  simpl. apply IH. apply NoDup_bump. exact H.
Qed.

Lemma occurrences_cons : forall k l labels,
  occurrences k (l :: labels)
  = (if Str.eqb l k then 1 else 0) + occurrences k labels.
Proof.
  intros k l labels. unfold occurrences, Str.eqb. simpl.
  destruct (list_eq_dec N.eq_dec l k); lia.
Qed.

Lemma occurrences_nonneg : forall k labels, 0 <= occurrences k labels.
Proof. intros. unfold occurrences. lia. Qed.

(** The counter of a plain label after a run of [bump]s: what it was plus
    the number of occurrences of the label. *)
Lemma fold_bump_own : forall labels acc k,
  Obj.inherited k = false ->
  Obj.own acc k <> Some Junk ->
  Obj.own (fold_left bump labels acc) k =
  match Obj.own acc k with
  | Some (Count n) => Some (Count (n + occurrences k labels))
  | _ => if occurrences k labels =? 0 then None
         else Some (Count (occurrences k labels))
  end.
Proof.
  induction labels as [|l labels IH]; intros acc k Hk Hj.
  - simpl. unfold occurrences. simpl.
    destruct (Obj.own acc k) as [[n|]|]; try reflexivity; try congruence.
    rewrite Z.add_0_r. reflexivity.
  - cbn [fold_left]. rewrite occurrences_cons.
    pose proof (occurrences_nonneg k labels) as Hpos.
    destruct (Str.eqb l k) eqn:E.
    + apply Str_eqb_eq in E. subst l.
      rewrite IH; [|exact Hk|]; rewrite bump_own_same by exact Hk.
      * destruct (Obj.own acc k) as [[n|]|]; try congruence.
        -- f_equal. f_equal. lia.
        -- destruct (Z.eqb_spec (1 + occurrences k labels) 0);
             [lia|reflexivity].
      * destruct (Obj.own acc k) as [[n|]|]; congruence.
    + apply Str_eqb_neq in E.
      rewrite IH; [|exact Hk|]; rewrite bump_own_other by exact E.
      * reflexivity.
      * exact Hj.
Qed.

Lemma fold_bump_count : forall labels k,
  Obj.inherited k = false ->
  Obj.own (fold_left bump labels []) k =
  if occurrences k labels =? 0 then None
  else Some (Count (occurrences k labels)).
Proof.
  intros labels k Hk.
  rewrite fold_bump_own; [reflexivity|exact Hk|discriminate].
Qed.

(** ** Sorting *)

Section SortFacts.

Context {A : Type} (cmp : A -> A -> Z) (key : A -> Z) (P : A -> Prop).

(** On the elements at hand the comparator is the difference of keys. *)
Hypothesis cmp_key : forall a b, P a -> P b -> cmp a b = key a - key b.

Lemma sort_insert_In : forall x y l,
  In y (sort_insert cmp x l) <-> y = x \/ In y l.
Proof.
  intros x y l. induction l as [|z l IH]; simpl.
  - intuition.
  - destruct (cmp x z <=? 0); simpl; [intuition|].
    rewrite IH. intuition.
Qed.

Lemma Array_sort_In : forall y l, In y (Array_sort cmp l) <-> In y l.
Proof.
  intros y l. induction l as [|x l IH]; simpl; [tauto|].
  rewrite sort_insert_In, IH. intuition.
Qed.

Lemma Array_sort_Forall : forall (Q : A -> Prop) l,
  Forall Q l -> Forall Q (Array_sort cmp l).
Proof.
  intros Q l H. rewrite Forall_forall in *. intros y Hy.
  apply H. apply Array_sort_In. exact Hy.
Qed.

Lemma sort_insert_sorted : forall x l,
  P x -> Forall P l ->
  StronglySorted (fun a b => key a <= key b) l ->
  StronglySorted (fun a b => key a <= key b) (sort_insert cmp x l).
Proof.
  intros x l Hx Hl Hs. induction Hs as [|z l Hs IH Hz]; simpl.
  - repeat constructor.
  - inversion Hl as [|? ? Pz Pl]; subst.
    rewrite (cmp_key x z Hx Pz).
    destruct (Z.leb_spec (key x - key z) 0) as [Hle|Hgt].
    + constructor; [constructor; assumption|].
      constructor; [lia|]. rewrite Forall_forall in *. intros y Hy.
      specialize (Hz y Hy). lia.
    + constructor; [apply IH; exact Pl|].
      rewrite Forall_forall in *. intros y Hy.
      apply sort_insert_In in Hy. destruct Hy as [Hy|Hy].
      * subst y. lia.
      * apply Hz. exact Hy.
Qed.

Lemma Array_sort_sorted : forall l,
  Forall P l -> StronglySorted (fun a b => key a <= key b) (Array_sort cmp l).
Proof.
  intros l Hl. induction Hl as [|x l Hx Hl IH]; simpl.
  - constructor.
  - apply sort_insert_sorted; [exact Hx| |exact IH].
    apply Array_sort_Forall. exact Hl.
Qed.

(** Stability: the elements of one key keep their relative order. *)
Lemma sort_insert_stable : forall n x l,
  P x -> Forall P l ->
  filter (fun e => key e =? n) (sort_insert cmp x l)
  = filter (fun e => key e =? n) (x :: l).
Proof.
  intros n x l Hx Hl. induction Hl as [|z l Pz Pl IH]; [reflexivity|].
  cbn [sort_insert]. rewrite (cmp_key x z Hx Pz).
  destruct (Z.leb_spec (key x - key z) 0) as [Hle|Hgt]; [reflexivity|].
  cbn [filter] in *. rewrite IH.
  destruct (Z.eqb_spec (key z) n), (Z.eqb_spec (key x) n);
    try reflexivity. lia.
Qed.

Lemma Array_sort_stable : forall n l,
  Forall P l ->
  filter (fun e => key e =? n) (Array_sort cmp l)
  = filter (fun e => key e =? n) l.
Proof.
  intros n l Hl. induction Hl as [|x l Hx Hl IH]; [reflexivity|].
  cbn [Array_sort fold_right]. fold (Array_sort cmp l).
  rewrite sort_insert_stable; [|exact Hx|apply Array_sort_Forall; exact Hl].
  cbn [filter]. rewrite IH. reflexivity.
Qed.

End SortFacts.

Lemma firstn_In : forall (A : Type) n (l : list A) x,
  In x (firstn n l) -> In x l.
Proof.
  intros A n l x H. rewrite <- (firstn_skipn n l). apply in_or_app. left.
  exact H.
Qed.

Lemma StronglySorted_firstn : forall (A : Type) (R : A -> A -> Prop) n l,
  StronglySorted R l -> StronglySorted R (firstn n l).
Proof.
  intros A R n l Hs. revert n.
  induction Hs as [|x l Hs IH Hx]; intros [|n]; simpl; try constructor.
  - apply IH.
  - rewrite Forall_forall in *. intros y Hy. apply Hx.
    apply (firstn_In A n l). exact Hy.
Qed.

Lemma StronglySorted_weaken : forall (A : Type) (R S : A -> A -> Prop) l,
  (forall a b, R a b -> S a b) -> StronglySorted R l -> StronglySorted S l.
Proof.
  intros A R S l HRS Hs. induction Hs as [|x l Hs IH Hx]; constructor.
  - exact IH.
  - rewrite Forall_forall in *. intros y Hy. apply HRS, Hx, Hy.
Qed.

(** ** Enumeration order of a table *)

Lemma entries_In : forall (V : Type) (o : Obj.t V) e,
  In e (Obj.entries o) <-> In e o.
Proof.
  intros V o e. unfold Obj.entries.
  rewrite in_app_iff, Array_sort_In, !filter_In.
  destruct (Obj.is_index (fst e)); simpl; intuition discriminate.
Qed.

Lemma Str_eqb_sym : forall a b, Str.eqb a b = Str.eqb b a.
Proof.
  intros a b. destruct (Str.eqb b a) eqn:E.
  - apply Str_eqb_eq in E. subst. apply Str_eqb_refl.
  - apply Str_eqb_neq in E. apply Str_eqb_neq. congruence.
Qed.

Lemma existsb_keys : forall (V : Type) (o : Obj.t V) k,
  existsb (Str.eqb k) (map fst o)
  = match Obj.own o k with Some _ => true | None => false end.
Proof.
  intros V o k. induction o as [|e o IH]; [reflexivity|].
  simpl. rewrite own_cons, IH, (Str_eqb_sym k (fst e)).
  destruct (Str.eqb (fst e) k); reflexivity.
Qed.

Lemma map_fst_bump : forall acc k,
  Obj.inherited k = false -> map fst (bump acc k) = add_new (map fst acc) k.
Proof.
  intros acc k Hk. destruct (bump_set acc k) as [v E]. rewrite E.
  rewrite map_fst_set. unfold add_new. rewrite existsb_keys.
  destruct (Obj.own acc k); [reflexivity|].
  replace (Str.eqb k (js "__proto__")) with false; [reflexivity|].
  symmetry. apply Str_eqb_neq. intros Ek. subst k. discriminate Hk.
Qed.

Lemma map_fst_fold_bump : forall labels acc,
  plain_labels labels ->
  map fst (fold_left bump labels acc) = fold_left add_new labels (map fst acc).
Proof.
  induction labels as [|l labels IH]; intros acc Hp; [reflexivity|].
  inversion Hp; subst. cbn [fold_left]. rewrite IH by assumption.
  rewrite map_fst_bump by assumption. reflexivity.
Qed.

Lemma fold_bump_keys : forall labels acc k,
  In k (map fst (fold_left bump labels acc)) ->
  In k (map fst acc) \/ In k labels.
Proof.
  induction labels as [|l labels IH]; intros acc k H; [left; exact H|].
  cbn [fold_left] in H. apply IH in H. destruct H as [H|H].
  - destruct (bump_set acc l) as [v E]. rewrite E, map_fst_set in H.
    destruct (Obj.own acc l); [left; exact H|].
    destruct (Str.eqb l (js "__proto__")); [left; exact H|].
    apply in_app_or in H. destruct H as [H|[H|[]]].
    + left. exact H.
    + right. left. exact H.
  - right. right. exact H.
Qed.

Lemma occurrences_pos_iff : forall k labels,
  (occurrences k labels =? 0) = false <-> In k labels.
Proof.
  intros k labels. unfold occurrences. rewrite Z.eqb_neq.
  rewrite (count_occ_In (list_eq_dec N.eq_dec) labels k). lia.
Qed.

(** What a frequency table built from plain labels contains: each label
    once, with the number of its occurrences. *)
Lemma fold_bump_table : forall labels k v,
  plain_labels labels ->
  (In (k, v) (fold_left bump labels [])
   <-> In k labels /\ v = Count (occurrences k labels)).
Proof.
  intros labels k v Hp.
  assert (Hnd : NoDup (map fst (fold_left bump labels [])))
    by (apply NoDup_fold_bump; constructor).
  split.
  - intros Hin.
    assert (Hk : In k labels).
    { destruct (fold_bump_keys labels [] k) as [[]|H]; [|exact H].
      apply in_map_iff. exists (k, v). split; [reflexivity|exact Hin]. }
    split; [exact Hk|].
    apply (In_own _ _ _ _ Hnd) in Hin. unfold plain_labels in Hp.
    rewrite Forall_forall in Hp.
    rewrite fold_bump_count in Hin by (apply Hp; exact Hk).
    rewrite (proj2 (occurrences_pos_iff k labels) Hk) in Hin. congruence.
  - intros [Hk Hv]. subst v. apply own_In. unfold plain_labels in Hp.
    rewrite Forall_forall in Hp.
    rewrite fold_bump_count by (apply Hp; exact Hk).
    rewrite (proj2 (occurrences_pos_iff k labels) Hk). reflexivity.
Qed.

Lemma fold_bump_numeric : forall labels,
  plain_labels labels -> Forall numeric (fold_left bump labels []).
Proof.
  intros labels Hp. apply Forall_forall. intros [k v] Hin.
  apply (fold_bump_table labels k v Hp) in Hin. destruct Hin as [_ Hv].
  exists (occurrences k labels). exact Hv.
Qed.

Lemma fold_left_bump_map : forall (A : Type) (f : A -> jsstring) l acc,
  fold_left (fun a c => bump a (f c)) l acc = fold_left bump (map f l) acc.
Proof.
  intros A f l. induction l as [|x l IH]; intros acc; [reflexivity|].
  simpl. apply IH.
Qed.

Lemma map_fst_filter : forall (V : Type) (p : jsstring -> bool) (o : Obj.t V),
  map fst (filter (fun e => p (fst e)) o) = filter p (map fst o).
Proof.
  intros V p o. induction o as [|e o IH]; [reflexivity|].
  simpl. destruct (p (fst e)); simpl; rewrite IH; reflexivity.
Qed.

Lemma byValueDesc_rank : forall a b,
  numeric a -> numeric b -> byValueDesc a b = rank a - rank b.
Proof.
  intros a b [x Ha] [y Hb]. unfold byValueDesc, rank. rewrite Ha, Hb.
  simpl. lia.
Qed.

(** ** The pendency table *)

Lemma pendenciaLabel_unspecified : forall p,
  Str.eqb (pendenciaLabel p) SemEspecificar = unspecified p.
Proof.
  intros p. unfold pendenciaLabel, unspecified.
  destruct p as [|c p]; reflexivity.
Qed.

Lemma occurrences_unspecified : forall labels,
  occurrences SemEspecificar (map pendenciaLabel labels)
  = Z.of_nat (length (filter unspecified labels)).
Proof.
  induction labels as [|p labels IH]; [reflexivity|].
  cbn [map]. rewrite occurrences_cons, IH, pendenciaLabel_unspecified.
  cbn [filter]. destruct (unspecified p); cbn [length]; lia.
Qed.

(** The labels of a mapped record are never empty. *)
Lemma mapRow_labels_nonempty : forall h now row l p,
  pendencias (mapRow h now row) = Some l -> In p l -> p <> [].
Proof.
  intros h now row l p Hl Hp. rewrite mapRow_pendencias_last in Hl.
  destruct (find _ _) as [col|]; [|discriminate].
  inversion Hl; subst l.
  pose proof (splitPendencias_labels h (snd col)) as HF.
  rewrite Forall_forall in HF. apply (HF p Hp).
Qed.

(** C1 (amended).  The bucket ["Sem especificar"] of the pendency table
    counts the entries of the flattened pendency lists that are the empty
    text or that very text, and is absent when there is none; a record
    whose pendency list is empty or absent adds nothing to the table, and
    the lists of mapped records hold no empty text. *)
Theorem pendenciasCount_unspecified : forall clientes,
  Obj.own (pendenciasCount clientes) SemEspecificar
  = (if Z.of_nat (length (filter unspecified (pendenciasFlat clientes))) =? 0
     then None
     else Some (Count (Z.of_nat
                         (length (filter unspecified
                                    (pendenciasFlat clientes)))))) /\
  (forall v,
     In (SemEspecificar, v) (pendenciasArray clientes)
     <-> Obj.own (pendenciasCount clientes) SemEspecificar = Some v) /\
  (forall c,
     pendencias c = None \/ pendencias c = Some [] ->
     pendenciasCount (c :: clientes) = pendenciasCount clientes) /\
  (forall h now row l p,
     pendencias (mapRow h now row) = Some l -> In p l -> p <> []).
Proof.
  intros clientes. split; [|split; [|split]].
  - unfold pendenciasCount.
    rewrite (fold_left_bump_map _ pendenciaLabel).
    rewrite fold_bump_count by reflexivity.
    rewrite occurrences_unspecified. reflexivity.
  - intros v. unfold pendenciasArray. rewrite Array_sort_In, entries_In.
    split.
    + apply In_own. unfold pendenciasCount.
      rewrite (fold_left_bump_map _ pendenciaLabel).
      apply NoDup_fold_bump. constructor.
    + apply own_In.
  - intros c Hc. unfold pendenciasCount, pendenciasFlat. cbn [flat_map].
    destruct Hc as [Hc|Hc]; rewrite Hc; reflexivity.
  - apply mapRow_labels_nonempty.
Qed.

Lemma pendenciasCount_unspecified_witness :
  pendencias (newCliente []) = None /\
  pendenciasCount
    [newCliente []; set_pendencias [js "RG"; []; js "Sem especificar"]
                      (newCliente [])]
  = [(js "RG", Count 1); (js "Sem especificar", Count 2)].
Proof.
  split; [reflexivity|].
  destruct (pendenciasCount_unspecified
              [set_pendencias [js "RG"; []; js "Sem especificar"]
                 (newCliente [])]) as [_ [_ [H _]]].
  rewrite (H (newCliente []) (or_introl eq_refl)). reflexivity.
Defined.

(** C1 fails as stated: a collection of one record whose pendency list is
    empty produces an empty table, without any ["Sem especificar"] row. *)
Lemma pendenciasArray_no_unspecified_row :
  pendencias
    (mapRow utcHost 0
       [(js "Cliente Novo", VStr (js "Bea")); (js "Pendencias", VStr [])])
  = Some [] /\
  pendenciasArray
    [mapRow utcHost 0
       [(js "Cliente Novo", VStr (js "Bea")); (js "Pendencias", VStr [])]]
  = [].
Proof. split; vm_compute; reflexivity. Qed.

(** ** The city table *)

Lemma cityCount_fold : forall clientes,
  cityCount clientes = fold_left bump (map cityLabel clientes) [].
Proof. intros clientes. apply fold_left_bump_map. Qed.

Lemma cityLabel_default : forall c,
  cidade c = None \/ cidade c = Some [] -> cityLabel c = NaoInformado.
Proof.
  intros c [H|H]; unfold cityLabel; rewrite H; reflexivity.
Qed.

Lemma cityLabel_given : forall c s,
  cidade c = Some s -> s <> [] -> cityLabel c = Str.trim s.
Proof.
  intros c s H Hs. unfold cityLabel. rewrite H.
  destruct s; [congruence|reflexivity].
Qed.

Lemma filter_none : forall (A : Type) (p : A -> bool) l,
  (forall x, In x l -> p x = false) -> filter p l = [].
Proof.
  intros A p l H. induction l as [|x l IH]; [reflexivity|].
  simpl. rewrite (H x (or_introl eq_refl)). apply IH.
  intros y Hy. apply H. right. exact Hy.
Qed.

(** C9 (amended).  When no city label is the name of a member of
    [Object.prototype], the top-cities table has one row per label (the
    trimmed city, or ["Não informado"] for an absent or empty city) with
    the number of records of that label, is cut to at most 10 rows, and is
    sorted with counts non-increasing.  Rows of equal count keep the
    enumeration order of the counter object: array-index labels first, by
    ascending value, then the other labels by first occurrence; without
    array-index labels this is the first-seen order. *)
Theorem topCities_spec : forall clientes,
  plain_labels (map cityLabel clientes) ->
  topCities clientes = firstn 10 (citiesSorted clientes) /\
  (length (topCities clientes) <= 10)%nat /\
  StronglySorted (fun a b => count_of (snd b) <= count_of (snd a))
                 (topCities clientes) /\
  (forall k v,
     In (k, v) (citiesSorted clientes)
     <-> In k (map cityLabel clientes)
         /\ v = Count (occurrences k (map cityLabel clientes))) /\
  (forall c, cidade c = None \/ cidade c = Some [] ->
             cityLabel c = NaoInformado) /\
  (forall c s, cidade c = Some s -> s <> [] -> cityLabel c = Str.trim s) /\
  (forall n,
     filter (fun e => count_of (snd e) =? n) (citiesSorted clientes)
     = filter (fun e => count_of (snd e) =? n)
              (Obj.entries (cityCount clientes))) /\
  (exists indices rest,
     Obj.entries (cityCount clientes) = indices ++ rest /\
     Forall (fun e => Obj.is_index (fst e) = true) indices /\
     StronglySorted (fun a b => Obj.index_of (fst a) <= Obj.index_of (fst b))
                    indices /\
     map fst rest
     = filter (fun k => negb (Obj.is_index k))
              (first_seen (map cityLabel clientes))) /\
  (Forall (fun k => Obj.is_index k = false) (map cityLabel clientes) ->
   map fst (Obj.entries (cityCount clientes))
   = first_seen (map cityLabel clientes)).
Proof.
  intros clientes Hp.
  set (labels := map cityLabel clientes) in *.
  assert (Hc : cityCount clientes = fold_left bump labels [])
    by apply cityCount_fold.
  assert (Hnum : Forall numeric (Obj.entries (cityCount clientes))).
  { apply Forall_forall. intros e He.
    apply (proj1 (entries_In _ _ _)) in He. rewrite Hc in He.
    pose proof (fold_bump_numeric labels Hp) as HF.
    rewrite Forall_forall in HF. apply HF. exact He. }
  assert (Hkeys : map fst (cityCount clientes) = first_seen labels).
  { rewrite Hc. apply (map_fst_fold_bump labels [] Hp). }
  assert (Hsorted : StronglySorted
                      (fun a b => count_of (snd b) <= count_of (snd a))
                      (citiesSorted clientes)).
  { apply StronglySorted_weaken with (R := fun a b => rank a <= rank b).
    - intros a b. unfold rank. lia.
    - apply (Array_sort_sorted byValueDesc rank numeric byValueDesc_rank).
      exact Hnum. }
  split; [reflexivity|]. split; [apply firstn_le_length|].
  split; [apply StronglySorted_firstn; exact Hsorted|].
  split; [|split; [apply cityLabel_default|split; [apply cityLabel_given|]]].
  - intros k v. unfold citiesSorted. rewrite Array_sort_In, entries_In, Hc.
    apply fold_bump_table. exact Hp.
  - split; [|split].
    + intros n. unfold citiesSorted.
      pose proof (Array_sort_stable byValueDesc rank numeric byValueDesc_rank
                    (- n) _ Hnum) as Hst.
      assert (Hext : forall l : list (jsstring * CountVal),
                filter (fun e => rank e =? - n) l
                = filter (fun e => count_of (snd e) =? n) l).
      { intros l. apply filter_ext. intros e. unfold rank.
        destruct (Z.eqb_spec (count_of (snd e)) n),
                 (Z.eqb_spec (- count_of (snd e)) (- n));
          try reflexivity; lia. }
      rewrite <- !Hext. exact Hst.
    + exists (Array_sort Obj.by_index
                (filter (fun e => Obj.is_index (fst e))
                        (cityCount clientes))),
             (filter (fun e => negb (Obj.is_index (fst e)))
                     (cityCount clientes)).
      split; [reflexivity|]. split; [|split].
      * apply Array_sort_Forall. apply Forall_forall. intros e He.
        apply filter_In in He. tauto.
      * apply (Array_sort_sorted Obj.by_index
                 (fun e => Obj.index_of (fst e)) (fun _ => True)).
        -- intros a b _ _. reflexivity.
        -- apply Forall_forall. intros e _. exact I.
      * rewrite (map_fst_filter _ (fun k => negb (Obj.is_index k))).
        rewrite Hkeys. reflexivity.
    + intros Hni. unfold Obj.entries.
      assert (Hall : forall e, In e (cityCount clientes) ->
                               Obj.is_index (fst e) = false).
      { intros e He. rewrite Forall_forall in Hni. apply Hni.
        destruct (fold_bump_keys labels [] (fst e)) as [[]|H]; [|exact H].
        rewrite <- Hc. apply in_map. exact He. }
      replace (filter (fun e => Obj.is_index (fst e)) (cityCount clientes))
        with (@nil (jsstring * CountVal)).
      * cbn [Array_sort fold_right app]. rewrite <- Hkeys. f_equal.
        apply forallb_filter_id. apply forallb_forall.
        intros e He. rewrite (Hall e He). reflexivity.
      * symmetry. apply filter_none. exact Hall.
Qed.

Lemma topCities_spec_witness :
  plain_labels
    (map cityLabel
       [set_cidade (js "Olinda") (newCliente []);
        set_cidade (js " Recife") (newCliente []);
        newCliente [];
        set_cidade (js "Recife") (newCliente [])]) /\
  topCities
    [set_cidade (js "Olinda") (newCliente []);
     set_cidade (js " Recife") (newCliente []);
     newCliente [];
     set_cidade (js "Recife") (newCliente [])]
  = [(js "Recife", Count 2); (js "Olinda", Count 1); (NaoInformado, Count 1)].
Proof.
  assert (Hp : plain_labels
                 (map cityLabel
                    [set_cidade (js "Olinda") (newCliente []);
                     set_cidade (js " Recife") (newCliente []);
                     newCliente [];
                     set_cidade (js "Recife") (newCliente [])])).
  { repeat constructor. }
  split; [exact Hp|].
  destruct (topCities_spec _ Hp) as [E _]. rewrite E. reflexivity.
Defined.

(** C9 fails as stated: of two cities seen once each, ["Recife"] first and
    ["7"] second, the table lists ["7"] first. *)
Lemma topCities_index_label_first :
  map cityLabel
    [set_cidade (js "Recife") (newCliente []);
     set_cidade (js "7") (newCliente [])]
  = [js "Recife"; js "7"] /\
  topCities
    [set_cidade (js "Recife") (newCliente []);
     set_cidade (js "7") (newCliente [])]
  = [(js "7", Count 1); (js "Recife", Count 1)].
Proof. split; vm_compute; reflexivity. Qed.

(* ================================================================== *)
(** * Further properties *)

(** ** Header resolution and normalisation *)

Lemma headerMap_key_resolves : forall k f,
  In (k, f) headerMap -> mapHeaderToKey k = Some (Field f).
Proof.
  intros k f Hin. unfold mapHeaderToKey.
  rewrite (headerMap_own k f Hin). reflexivity.
Qed.

(** X1.  Every key of [headerMap] resolves, by the exact match, to the
    field written beside it: no entry of the table is shadowed. *)
Theorem mapHeaderToKey_table_key : forall k f,
  In (k, f) headerMap -> mapHeaderToKey k = Some (Field f).
Proof. exact headerMap_key_resolves. Qed.

Lemma mapHeaderToKey_table_key_witness :
  In (js "responsavel", K_responsavelCadastramento) headerMap /\
  mapHeaderToKey (js "responsavel") = Some (Field K_responsavelCadastramento).
Proof.
  assert (H : In (js "responsavel", K_responsavelCadastramento) headerMap).
  { unfold headerMap. do 22 right. left. reflexivity. }
  split; [exact H|]. apply (mapHeaderToKey_table_key _ _ H).
Defined.

Lemma starts_with_refl : forall s, Str.starts_with s s = true.
Proof.
  induction s as [|c s IH]; [reflexivity|].
  simpl. rewrite N.eqb_refl. exact IH.
Qed.

Lemma includes_refl : forall s, Str.includes s s = true.
Proof.
  intros s. destruct s; simpl; [reflexivity|].
  rewrite N.eqb_refl, starts_with_refl. reflexivity.
Qed.

(** X2.  [mapHeaderToKey] returns [undefined] exactly for the headers that
    are not the name of a member of [Object.prototype] and contain no key
    of the table as a substring. *)
Theorem mapHeaderToKey_undefined_iff : forall normalized,
  mapHeaderToKey normalized = None
  <-> Obj.inherited normalized = false
      /\ forall k f, In (k, f) headerMap -> Str.includes normalized k = false.
Proof.
  intros normalized. split.
  - intros H. destruct (Obj.inherited normalized) eqn:Hi.
    + exfalso. unfold mapHeaderToKey, Obj.get in H. rewrite Hi in H.
      destruct (Obj.own headerMap normalized); discriminate.
    + split; [reflexivity|]. intros k f Hin.
      rewrite (mapHeaderToKey_plain normalized Hi) in H.
      destruct (Obj.own headerMap normalized); [discriminate|].
      unfold first_substring_key in H.
      destruct (find (fun e => Str.includes normalized (fst e)) headerMap)
        eqn:Ef; [discriminate|].
      apply (find_none _ _ Ef (k, f) Hin).
  - intros [Hi Hall]. rewrite (mapHeaderToKey_plain normalized Hi).
    destruct (Obj.own headerMap normalized) as [f|] eqn:Eo.
    + apply own_In in Eo.
      pose proof (includes_refl normalized) as Hr.
      rewrite (Hall _ _ Eo) in Hr. discriminate.
    + unfold first_substring_key.
      destruct (find (fun e => Str.includes normalized (fst e)) headerMap)
        as [[k f]|] eqn:Ef; [|reflexivity].
      apply find_some in Ef. destruct Ef as [Hin Hinc]. cbn [fst] in Hinc.
      rewrite (Hall _ _ Hin) in Hinc. discriminate.
Qed.

Lemma drop_while_app : forall p x y,
  Str.drop_while p (x ++ y) =
  if forallb p x then Str.drop_while p y else Str.drop_while p x ++ y.
Proof.
  intros p x y. induction x as [|c x IH]; [reflexivity|].
  simpl. destruct (p c); [exact IH|reflexivity].
Qed.

Lemma drop_while_all : forall p x,
  forallb p x = true -> Str.drop_while p x = [].
Proof.
  intros p x. induction x as [|c x IH]; intros H; [reflexivity|].
  simpl in *. apply andb_prop in H. destruct H as [Hc Hx].
  rewrite Hc. apply IH. exact Hx.
Qed.

(** White space before a text does not change what [trim] gives. *)
Lemma trim_pad_left : forall ws s,
  forallb Str.is_space ws = true -> Str.trim (ws ++ s) = Str.trim s.
Proof.
  intros ws s H. unfold Str.trim. rewrite drop_while_app, H. reflexivity.
Qed.

(** Nor does white space after it. *)
Lemma trim_pad_right : forall ws s,
  forallb Str.is_space ws = true -> Str.trim (s ++ ws) = Str.trim s.
Proof.
  intros ws s H. unfold Str.trim. rewrite drop_while_app.
  destruct (forallb Str.is_space s) eqn:Es.
  - rewrite (drop_while_all _ ws H), (drop_while_all _ s Es). reflexivity.
  - rewrite rev_app_distr, drop_while_app, forallb_rev, H. reflexivity.
Qed.

Lemma trim_all_space : forall s,
  forallb Str.is_space s = true -> Str.trim s = [].
Proof.
  intros s H. unfold Str.trim. rewrite (drop_while_all _ s H). reflexivity.
Qed.

(** X3.  [normalizeHeader] ignores white space around a header: padding a
    non-empty header with white space on either side does not change the
    result, whatever the host's case and decomposition tables. *)
Theorem normalizeHeader_padding : forall h before s after,
  s <> [] ->
  forallb Str.is_space before = true -> forallb Str.is_space after = true ->
  normalizeHeader h (before ++ s ++ after) = normalizeHeader h s.
Proof.
  intros h before s after Hs Hb Ha. unfold normalizeHeader.
  assert (Hne : Num.nonempty (before ++ s ++ after) = true).
  { destruct before; simpl; [|reflexivity].
    destruct s; [congruence|reflexivity]. }
  rewrite Hne. destruct s as [|c s]; [congruence|].
  cbn [Num.nonempty negb].
  rewrite (trim_pad_left before _ Hb), (trim_pad_right after _ Ha).
  reflexivity.
Qed.

Lemma normalizeHeader_padding_witness :
  js "Nome" <> [] /\
  normalizeHeader utcHost (js "  " ++ js "Nome" ++ js " ") = js "nome".
Proof.
  assert (H : js "Nome" <> []) by discriminate.
  split; [exact H|].
  rewrite (normalizeHeader_padding utcHost (js "  ") (js "Nome") (js " ") H
             eq_refl eq_refl).
  reflexivity.
Defined.

Lemma ascii_lower_ascii : forall s,
  is_ascii s = true -> is_ascii (ascii_lower s) = true.
Proof.
  intros s H. unfold is_ascii, ascii_lower in *. rewrite forallb_forall in *.
  intros c Hc. apply in_map_iff in Hc. destruct Hc as [x [Hx Hin]].
  specialize (H x Hin). apply N.ltb_lt in H. subst c.
  destruct ((65 <=? x) && (x <=? 90))%N eqn:E; apply N.ltb_lt; [|exact H].
  apply andb_prop in E. destruct E as [_ E]. apply N.leb_le in E. lia.
Qed.

Lemma ascii_no_marks : forall s,
  is_ascii s = true ->
  filter (fun c => negb ((768 <=? c) && (c <=? 879))%N) s = s.
Proof.
  intros s H. apply forallb_filter_id. unfold is_ascii in H.
  rewrite forallb_forall in *. intros c Hc. specialize (H c Hc).
  apply N.ltb_lt in H. apply negb_true_iff, andb_false_intro1, N.leb_gt. lia.
Qed.

(** On ASCII headers normalisation is trimming and lower-casing. *)
Lemma normalizeHeader_ascii : forall h s,
  ascii_host h -> is_ascii s = true -> s <> [] ->
  normalizeHeader h s = ascii_lower (Str.trim s).
Proof.
  intros h s Hh Hs Hne. unfold normalizeHeader.
  destruct s as [|c r] eqn:E; [congruence|]. cbn [Num.nonempty negb].
  rewrite <- E in *.
  assert (Ht : is_ascii (Str.trim s) = true)
    by (apply trim_keeps_forallb; exact Hs).
  destruct (Hh _ Ht) as [Hl _]. rewrite Hl.
  destruct (Hh _ (ascii_lower_ascii _ Ht)) as [_ Hn]. rewrite Hn.
  apply ascii_no_marks. apply ascii_lower_ascii. exact Ht.
Qed.

(** X4.  Matching a header against the table ignores the case of ASCII
    letters and surrounding white space: an ASCII header that, trimmed and
    lower-cased, is a key of [headerMap] resolves to that key's field. *)
Theorem header_case_insensitive : forall h s k f,
  ascii_host h -> is_ascii s = true -> s <> [] ->
  ascii_lower (Str.trim s) = k -> In (k, f) headerMap ->
  mapHeaderToKey (normalizeHeader h s) = Some (Field f).
Proof.
  intros h s k f Hh Hs Hne Hk Hin.
  rewrite (normalizeHeader_ascii h s Hh Hs Hne), Hk.
  apply headerMap_key_resolves. exact Hin.
Qed.

Lemma utcHost_ascii : ascii_host utcHost.
Proof. intros s _. split; reflexivity. Qed.

Lemma header_case_insensitive_witness :
  ascii_lower (Str.trim (js " CPF ")) = js "cpf" /\
  mapHeaderToKey (normalizeHeader utcHost (js " CPF ")) = Some (Field K_cpf).
Proof.
  split; [reflexivity|].
  apply (header_case_insensitive utcHost (js " CPF ") (js "cpf") K_cpf
           utcHost_ascii eq_refl).
  - discriminate.
  - reflexivity.
  - unfold headerMap. do 2 right. left. reflexivity.
Defined.

(** ** Edge cases of [parseDate] *)

(** X5.  [parseDate] returns [null] for every falsy value other than the
    number 0 ([undefined], [null], [false], NaN, the empty text) and for
    every text of white space only. *)
Theorem parseDate_blank : forall h,
  (forall v, truthy v = false -> is_zero v = false -> parseDate h v = JNull) /\
  (forall s, forallb Str.is_space s = true -> parseDate h (VStr s) = JNull).
Proof.
  intros h. split.
  - intros v Ht Hz. unfold parseDate. rewrite Ht, Hz. reflexivity.
  - intros s Hs. destruct s as [|c r] eqn:E; [reflexivity|]. rewrite <- E in *.
    rewrite parseDate_text.
    + unfold ToString, parseText. rewrite (trim_all_space s Hs). reflexivity.
    + left. subst s. reflexivity.
    + intros t. discriminate.
Qed.

Lemma parseDate_blank_witness :
  forallb Str.is_space [32%N; 9%N; 160%N] = true /\
  parseDate utcHost (VStr [32%N; 9%N; 160%N]) = JNull.
Proof.
  split; [reflexivity|].
  destruct (parseDate_blank utcHost) as [_ H]. apply H. reflexivity.
Defined.

Lemma gtb_year_valid : forall h dt,
  Num.gtb (getFullYear h dt) (Num.of_Z 1900) = true ->
  exists t, dt = mkDate (Some t).
Proof.
  intros h [[t|]] H; [exists t; reflexivity|].
  unfold getFullYear in H. simpl in H. discriminate.
Qed.

(** X6.  A Date that [parseDate] builds from a value that is no Date and
    whose text has not exactly three parts between slashes (the ISO and
    the serial attempts) is valid and has a local year above 1900. *)
Theorem parseDate_year_above_1900 : forall h v dt,
  (forall t, v <> VDate (mkDate (Some t))) ->
  length (Str.split_on 47%N (Str.trim (ToString h v))) <> 3%nat ->
  parseDate h v = JVal dt ->
  Num.gtb (getFullYear h dt) (Num.of_Z 1900) = true /\
  exists t, dt = mkDate (Some t).
Proof.
  intros h v dt Hd Hl Hp.
  assert (Hv : truthy v = true \/ is_zero v = true).
  { destruct (truthy v) eqn:Ht; [left; reflexivity|].
    destruct (is_zero v) eqn:Hz; [right; reflexivity|].
    unfold parseDate in Hp. rewrite Ht, Hz in Hp. discriminate. }
  assert (Hy : Num.gtb (getFullYear h dt) (Num.of_Z 1900) = true).
  { rewrite (parseDate_text h v Hv Hd) in Hp. unfold parseText in Hp.
    destruct (negb (Num.nonempty (Str.trim (ToString h v))));
      [discriminate|].
    replace (length (Str.split_on 47%N (Str.trim (ToString h v))) =? 3)%nat
      with false in Hp by (symmetry; apply Nat.eqb_neq; exact Hl).
    destruct (iso_attempt h (Str.trim (ToString h v))) as [d1|] eqn:Ei.
    - inversion Hp; subst d1. unfold iso_attempt in Ei.
      destruct (negb (Num.isNaN (Date_parse h (Str.trim (ToString h v)))));
        [|discriminate].
      destruct (Num.gtb (getFullYear h (new_Date_value _)) _) eqn:Eg;
        [|discriminate].
      inversion Ei; subst dt. exact Eg.
    - destruct (serial_attempt h (Str.trim (ToString h v))) as [d2|] eqn:Es;
        [|discriminate].
      inversion Hp; subst d2. unfold serial_attempt in Es.
      destruct (negb (Num.isNaN (Number (Str.trim (ToString h v))))
                && Num.gtb (Number (Str.trim (ToString h v))) (Num.of_Z 0));
        [|discriminate].
      destruct (Num.gtb (getFullYear h (new_Date_value _)) _) eqn:Eg;
        [|discriminate].
      inversion Es; subst dt. exact Eg. }
  split; [exact Hy|]. apply (gtb_year_valid h dt Hy).
Qed.

Lemma parseDate_year_above_1900_witness :
  parseDate utcHost (VStr (js "2020-07-17"))
  = JVal (mkDate (Some 1594944000000)) /\
  Num.gtb (getFullYear utcHost (mkDate (Some 1594944000000))) (Num.of_Z 1900)
  = true.
Proof.
  split; [reflexivity|].
  apply (parseDate_year_above_1900 utcHost (VStr (js "2020-07-17"))).
  - intros t. discriminate.
  - vm_compute. discriminate.
  - reflexivity.
Defined.

Lemma DayFromYear_beyond_range : forall y,
  275761 <= y -> 100000100 <= DateAlg.DayFromYear y.
Proof.
  intros y H. unfold DateAlg.DayFromYear. Z.div_mod_to_equations. lia.
Qed.

(** X7.  A date text whose year lies beyond the range of Date objects
    (275761 or later) is not rejected: [parseDate] returns the invalid
    Date, whose [getFullYear()] is NaN, rather than [null]. *)
Theorem parseDate_year_beyond_range : forall h s p0 p1 p2 DD MM YYYY,
  Str.split_on 47%N (Str.trim s) = [p0; p1; p2] ->
  Number p0 = Num.of_Z DD -> Number p1 = Num.of_Z MM ->
  Number p2 = Num.of_Z YYYY ->
  275761 <= YYYY -> 1 <= MM <= 12 -> 1 <= DD <= 31 ->
  (forall t, Z.abs (LocalTZA h t false) <= DateAlg.msPerDay) ->
  parseDate h (VStr s) = JVal (mkDate None) /\
  getFullYear h (mkDate None) = NaN.
Proof.
  intros h s p0 p1 p2 DD MM YYYY Hs E0 E1 E2 Hy Hm Hd Htz.
  split; [|reflexivity].
  rewrite (parseDate_three_parts h s p0 p1 p2 Hs), E0, E1, E2.
  cbn [Num.isNaN Num.of_Z negb andb]. fold (Num.of_Z YYYY).
  rewrite gtb_int.
  replace (1900 <? YYYY) with true by (symmetry; apply Z.ltb_lt; lia).
  fold (Num.of_Z MM).
  assert (H53 : 2 ^ 53 = 9007199254740992) by reflexivity.
  rewrite sub_int by lia. f_equal.
  unfold new_Date_ymd, Num.of_Z, finite. rewrite !trunc_int.
  replace ((0 <=? YYYY) && (YYYY <=? 99)) with false
    by (symmetry; apply andb_false_intro2; apply Z.leb_gt; lia).
  cbv zeta. f_equal.
  set (t := DateAlg.MakeDay YYYY (MM - 1) DD * DateAlg.msPerDay).
  replace (Z.abs (t - LocalTZA h t false) <=? 8640000000000000) with false;
    [reflexivity|].
  symmetry. apply Z.leb_gt. specialize (Htz t).
  assert (Ht : 100000100 * DateAlg.msPerDay <= t).
  { unfold t, DateAlg.MakeDay.
    rewrite Z.div_small, Z.mod_small, Z.add_0_r by lia.
    pose proof (DayFromYear_beyond_range YYYY Hy) as Hday.
    assert (0 <= DateAlg.DaysBeforeMonth (DateAlg.InLeapYear YYYY) (MM - 1)).
    { destruct (month_cases (MM - 1) ltac:(lia))
        as [E|[E|[E|[E|[E|[E|[E|[E|[E|[E|[E|E]]]]]]]]]]];
        rewrite E; destruct (DateAlg.InLeapYear YYYY);
        cbn [DateAlg.DaysBeforeMonth]; lia. }
    unfold DateAlg.msPerDay. lia. }
  unfold DateAlg.msPerDay in *. lia.
Qed.

Lemma parseDate_year_beyond_range_witness :
  Str.split_on 47%N (Str.trim (js "01/01/300000"))
  = [js "01"; js "01"; js "300000"] /\
  parseDate utcHost (VStr (js "01/01/300000")) = JVal (mkDate None).
Proof.
  split; [reflexivity|].
  apply (parseDate_year_beyond_range utcHost (js "01/01/300000")
           (js "01") (js "01") (js "300000") 1 1 300000);
    try reflexivity; try lia.
  intros t. vm_compute. discriminate.
Defined.

(** ** Pendency labels: split after join *)

Lemma split_runs_from_plain : forall p x b,
  forallb (fun c => negb (p c)) x = true ->
  Str.split_runs_from p b x = [x].
Proof.
  intros p x. induction x as [|c x IH]; intros b H; [reflexivity|].
  simpl in *. apply andb_prop in H. destruct H as [Hc Hx].
  apply negb_true_iff in Hc. rewrite Hc, (IH false Hx). reflexivity.
Qed.

Lemma split_runs_from_nonempty : forall p b s,
  Str.split_runs_from p b s <> [].
Proof.
  intros p b s. revert b. induction s as [|c s IH]; intros b; simpl.
  - discriminate.
  - destruct (p c).
    + destruct b; [apply IH|discriminate].
    + destruct (Str.split_runs_from p false s); discriminate.
Qed.

(** A piece without separator in front of a text joins the first piece
    of that text. *)
Lemma split_runs_from_prefix : forall p x r,
  forallb (fun c => negb (p c)) x = true -> x <> [] ->
  Str.split_runs_from p false (x ++ r) =
  match Str.split_runs_from p false r with
  | piece :: rest => (x ++ piece) :: rest
  | [] => [x]
  end.
Proof.
  intros p x r. induction x as [|c x IH]; intros H Hne; [congruence|].
  simpl in H. apply andb_prop in H. destruct H as [Hc Hx].
  apply negb_true_iff in Hc. cbn [app Str.split_runs_from]. rewrite Hc.
  destruct x as [|c' x'].
  - cbn [app]. destruct (Str.split_runs_from p false r); reflexivity.
  - rewrite (IH Hx) by discriminate.
    destruct (Str.split_runs_from p false r); reflexivity.
Qed.

Lemma label_unit_not_separator : forall p,
  forallb label_unit p = true ->
  forallb (fun c => negb (is_separator c)) p = true.
Proof.
  intros p H. rewrite forallb_forall in *. intros c Hc.
  specialize (H c Hc). unfold label_unit in H.
  apply andb_prop in H. destruct H as [H _].
  apply andb_prop in H. tauto.
Qed.

(** The joined text is cut back into its labels, each later one behind
    the space of the separator. *)
Lemma split_runs_join : forall x l,
  Forall valid_label (x :: l) ->
  Str.split_runs_from is_separator false (join (js ", ") (x :: l))
  = x :: map (fun p => 32%N :: p) l.
Proof.
  intros x l. revert x. induction l as [|y l IH]; intros x H.
  - inversion H as [|? ? [_ [_ Hx]] _]; subst. cbn [join map].
    apply split_runs_from_plain. apply label_unit_not_separator. exact Hx.
  - inversion H as [|? ? [Hne [_ Hx]] Hl]; subst.
    change (join (js ", ") (x :: y :: l))
      with (x ++ [44%N; 32%N] ++ join (js ", ") (y :: l)).
    rewrite split_runs_from_prefix
      by (try apply label_unit_not_separator; assumption).
    cbn [app Str.split_runs_from is_separator N.eqb Pos.eqb orb].
    rewrite (IH y Hl). rewrite app_nil_r. reflexivity.
Qed.

Lemma replace_unit_absent : forall c s,
  forallb (fun x => negb (x =? c)%N) s = true -> Str.replace_unit c s = s.
Proof.
  intros c s H. unfold Str.replace_unit. induction s as [|x s IH];
    [reflexivity|].
  simpl in *. apply andb_prop in H. destruct H as [Hx Hs].
  apply negb_true_iff in Hx. rewrite Hx, (IH Hs). reflexivity.
Qed.

Lemma join_forallb : forall (q : N -> bool) l,
  q 44%N = true -> q 32%N = true ->
  Forall (fun p => forallb q p = true) l ->
  forallb q (join (js ", ") l) = true.
Proof.
  intros q l H44 H32 H. induction H as [|x l Hx Hl IH]; [reflexivity|].
  destruct l as [|y l]; [exact Hx|].
  change (join (js ", ") (x :: y :: l))
    with (x ++ [44%N; 32%N] ++ join (js ", ") (y :: l)).
  rewrite !forallb_app, Hx, IH. simpl. rewrite H44, H32. reflexivity.
Qed.

Lemma valid_label_trim_space : forall p,
  valid_label p -> Str.trim (32%N :: p) = p.
Proof.
  intros p [_ [Ht _]].
  change (32%N :: p) with ([32%N] ++ p).
  rewrite trim_pad_left by reflexivity. exact Ht.
Qed.

Lemma split_of_join : forall h labels,
  Forall valid_label labels ->
  splitPendencias h (VStr (join (js ", ") labels)) = labels.
Proof.
  intros h labels H. destruct labels as [|x l]; [reflexivity|].
  assert (Hne : Num.nonempty (join (js ", ") (x :: l)) = true).
  { inversion H as [|? ? [Hx _] _]; subst.
    destruct x as [|c x]; [congruence|].
    destruct l; reflexivity. }
  unfold splitPendencias. cbn [truthy]. rewrite Hne. cbn [negb ToString].
  assert (Hq : forall k, k <> 44%N -> k <> 32%N ->
               (k = 10%N \/ k = 13%N) ->
               forallb (fun c => negb (c =? k)%N) (join (js ", ") (x :: l))
               = true).
  { intros k H44 H32 Hk. apply join_forallb.
    - apply negb_true_iff, N.eqb_neq. congruence.
    - apply negb_true_iff, N.eqb_neq. congruence.
    - apply Forall_forall. intros p Hp. rewrite Forall_forall in H.
      destruct (H p Hp) as [_ [_ Hu]]. rewrite forallb_forall in *.
      intros c Hc. specialize (Hu c Hc). unfold label_unit in Hu.
      apply andb_prop in Hu. destruct Hu as [Hu H13].
      apply andb_prop in Hu. destruct Hu as [_ H10].
      destruct Hk; subst k; assumption. }
  rewrite (replace_unit_absent 13%N) by (apply Hq; [discriminate..|tauto]).
  rewrite (replace_unit_absent 10%N) by (apply Hq; [discriminate..|tauto]).
  unfold Str.split_runs. rewrite (split_runs_join x l H).
  inversion H as [|? ? Hx Hl]; subst. cbn [map filter].
  destruct Hx as [Hxne [Hxt _]]. rewrite Hxt.
  destruct x as [|c x]; [congruence|]. cbn [Num.nonempty]. f_equal.
  clear -Hl. induction Hl as [|y l Hy Hl IH]; [reflexivity|].
  cbn [map filter]. rewrite (valid_label_trim_space y Hy).
  destruct Hy as [Hyne _]. destruct y as [|c y]; [congruence|].
  cbn [Num.nonempty]. f_equal. exact IH.
Qed.

(** X8.  Joining labels with a comma and a space, as the preview table
    does, and splitting the text again gives the labels back, provided
    each is a label as [splitPendencias] produces them (non-empty, trimmed,
    free of separators and line breaks). *)
Theorem splitPendencias_join : forall h labels,
  Forall valid_label labels ->
  splitPendencias h (VStr (join (js ", ") labels)) = labels.
Proof. exact split_of_join. Qed.

Lemma splitPendencias_join_witness :
  Forall valid_label [js "RG"; js "Comprovante de renda"] /\
  splitPendencias utcHost (VStr (js "RG, Comprovante de renda"))
  = [js "RG"; js "Comprovante de renda"].
Proof.
  assert (H : Forall valid_label [js "RG"; js "Comprovante de renda"]).
  { repeat constructor; discriminate. }
  split; [exact H|].
  apply (splitPendencias_join utcHost _ H).
Defined.

(** X9.  The pendency cell of the preview of a mapped record reads back:
    when the record has labels, splitting the cell gives exactly them;
    when it has none the cell is a dash, which splits into the one label
    ["-"]. *)
Theorem pendenciasCell_reads_back : forall h now row l,
  pendencias (mapRow h now row) = Some l ->
  (l <> [] ->
   splitPendencias h (VStr (pendenciasCell (mapRow h now row))) = l) /\
  (l = [] ->
   pendenciasCell (mapRow h now row) = js "-" /\
   splitPendencias h (VStr (pendenciasCell (mapRow h now row))) = [js "-"]).
Proof.
  intros h now row l Hl.
  assert (Hv : Forall valid_label l).
  { rewrite mapRow_pendencias_last in Hl.
    destruct (find (resolves_to h K_pendencias) (rev (Obj.entries row)))
      as [col|]; [|discriminate].
    inversion Hl; subst l. apply splitPendencias_labels. }
  unfold pendenciasCell. rewrite Hl. split.
  - intros Hne.
    assert (Hj : Num.nonempty (join (js ", ") l) = true).
    { destruct l as [|x l']; [congruence|].
      inversion Hv as [|? ? [Hx _] _]; subst.
      destruct x as [|c x]; [congruence|]. destruct l'; reflexivity. }
    cbv zeta. rewrite Hj. apply split_of_join. exact Hv.
  - intros E. subst l. split; reflexivity.
Qed.

Lemma pendenciasCell_reads_back_witness :
  pendencias
    (mapRow utcHost 0 [(js "Pendencias", VStr (js "RG; CPF"))])
  = Some [js "RG"; js "CPF"] /\
  pendenciasCell (mapRow utcHost 0 [(js "Pendencias", VStr (js "RG; CPF"))])
  = js "RG, CPF" /\
  splitPendencias utcHost
    (VStr (pendenciasCell
             (mapRow utcHost 0 [(js "Pendencias", VStr (js "RG; CPF"))])))
  = [js "RG"; js "CPF"].
Proof.
  split; [reflexivity|]. split; [reflexivity|].
  destruct (pendenciasCell_reads_back utcHost 0
              [(js "Pendencias", VStr (js "RG; CPF"))] [js "RG"; js "CPF"]
              eq_refl) as [H _].
  apply H. discriminate.
Defined.

(** ** The value of the overdue-days cell *)

(** On a text of digits whose value is below 2^53, [Number] is that value
    exactly. *)
Lemma Number_digits_exact : forall s,
  forallb Str.is_digit s = true ->
  Num.digits_val 10 0 s < 2 ^ 53 ->
  Number s = Num.of_Z (Num.digits_val 10 0 s).
Proof.
  intros s Hd Hv. rewrite (Number_digits s Hd).
  destruct s as [|c s]; [reflexivity|].
  pose proof (digits_val_nonneg (c :: s) 0 Hd ltac:(lia)) as Hpos.
  change (Num.pow10 0) with 1%Q.
  rewrite round64_int; unfold Qmult, inject_Z; cbn [Qnum Qden].
  - rewrite Z.mul_1_r. reflexivity.
  - reflexivity.
  - rewrite Z.mul_1_r. lia.
Qed.

Lemma coerceDias_digit_run : forall h v,
  Num.digits_val 10 0 (Str.strip_non_digits (ToString h v)) < 2 ^ 53 ->
  coerceDias h v
  = JVal (Num.of_Z (Num.digits_val 10 0
                      (Str.strip_non_digits (ToString h v)))).
Proof.
  intros h v H. unfold coerceDias.
  rewrite (Number_digits_exact _ (strip_non_digits_digits _) H).
  reflexivity.
Qed.

(** X10.  The overdue-days cell is read as the number spelled by its
    digits alone, in their order: signs, decimal points, units and any
    other characters are dropped (so ["-5 dias"] is 5 and ["1.5"] is 15).
    Stated for digit runs whose value is below 2^53. *)
Theorem coerceDias_digits : forall h v,
  Num.digits_val 10 0 (Str.strip_non_digits (ToString h v)) < 2 ^ 53 ->
  coerceDias h v
  = JVal (Num.of_Z (Num.digits_val 10 0
                      (Str.strip_non_digits (ToString h v)))).
Proof. exact coerceDias_digit_run. Qed.

Lemma coerceDias_digits_witness :
  Num.digits_val 10 0 (Str.strip_non_digits (js "1.5 dias")) = 15 /\
  coerceDias utcHost (VStr (js "1.5 dias")) = JVal (Num.of_Z 15).
Proof.
  split; [reflexivity|].
  apply (coerceDias_digits utcHost (VStr (js "1.5 dias"))). reflexivity.
Defined.

Ltac digit_value :=
  match goal with
  | |- context [if ?b then ?x else ?y] =>
      let v := eval vm_compute in (if b then x else y) in
      change (if b then x else y) with v
  end.

Lemma of_uint_acc_digits : forall u acc,
  Z.pos (Pos.of_uint_acc u acc)
  = Num.digits_val 10 (Z.pos acc) (uint_digits u).
Proof.
  induction u as [|u IH|u IH|u IH|u IH|u IH|u IH|u IH|u IH|u IH|u IH];
    intros acc; cbn [Pos.of_uint_acc uint_digits Num.digits_val];
    [reflexivity|rewrite IH; f_equal; digit_value; lia..].
Qed.

Lemma of_uint_digits : forall u,
  Z.of_N (Pos.of_uint u) = Num.digits_val 10 0 (uint_digits u).
Proof.
  induction u as [|u IH|u IH|u IH|u IH|u IH|u IH|u IH|u IH|u IH|u IH];
    cbn [Pos.of_uint uint_digits Num.digits_val];
    [reflexivity|exact IH|cbn [Z.of_N]; rewrite of_uint_acc_digits;
                          digit_value; reflexivity..].
Qed.

Lemma uint_digits_digits : forall u,
  forallb Str.is_digit (uint_digits u) = true.
Proof.
  induction u; simpl; try reflexivity; exact IHu.
Qed.

(** The decimal text of a natural number spells that number. *)
Lemma decimal_text_value : forall n,
  Num.digits_val 10 0 (uint_digits (N.to_uint n)) = Z.of_N n.
Proof.
  intros n. rewrite <- of_uint_digits.
  change (Pos.of_uint (N.to_uint n)) with (N.of_uint (N.to_uint n)).
  rewrite DecimalN.Unsigned.of_to. reflexivity.
Qed.

Lemma filter_digits_id : forall s,
  forallb Str.is_digit s = true -> Str.strip_non_digits s = s.
Proof. intros s H. apply forallb_filter_id. exact H. Qed.

(** X11.  A numeric cell holding an integer [k] (below 2^53 in magnitude)
    in the overdue-days column is coerced to the absolute value of [k]:
    the sign is lost with the other non-digits. *)
Theorem coerceDias_integer_cell : forall h k,
  Z.abs k < 2 ^ 53 ->
  coerceDias h (VNum (Num.of_Z k)) = JVal (Num.of_Z (Z.abs k)).
Proof.
  intros h k Hk.
  assert (H53 : 2 ^ 53 = 9007199254740992) by reflexivity.
  assert (Hs : Str.strip_non_digits (ToString h (VNum (Num.of_Z k)))
               = uint_digits (N.to_uint (Z.abs_N k))).
  { unfold ToString, num_to_string, Num.of_Z, inject_Z. cbn [Qnum Qden].
    replace (Z.abs k <? 10 ^ 21) with true
      by (symmetry; apply Z.ltb_lt;
          change (10 ^ 21) with 1000000000000000000000; lia).
    unfold Str.strip_non_digits. rewrite filter_app.
    fold (Str.strip_non_digits (uint_digits (N.to_uint (Z.abs_N k)))).
    rewrite (filter_digits_id _ (uint_digits_digits _)).
    destruct (k <? 0); reflexivity. }
  rewrite coerceDias_digit_run; rewrite Hs, decimal_text_value, N2Z.inj_abs_N.
  - reflexivity.
  - exact Hk.
Qed.

Lemma coerceDias_integer_cell_witness :
  Z.abs (-12) < 2 ^ 53 /\
  coerceDias utcHost (VNum (Num.of_Z (-12))) = JVal (Num.of_Z 12).
Proof.
  split; [reflexivity|].
  apply (coerceDias_integer_cell utcHost (-12)). reflexivity.
Defined.

(** ** Invariants of the row mapper *)

Lemma fold_left_invariant : forall (A B : Type) (P : A -> Prop)
                                   (f : A -> B -> A) l a,
  P a -> (forall a x, P a -> P (f a x)) -> P (fold_left f l a).
Proof.
  intros A B P f l. induction l as [|x l IH]; intros a Ha Hf; [exact Ha|].
  simpl. apply IH; [apply Hf; exact Ha|exact Hf].
Qed.

Lemma mapColumn_raw : forall h out col,
  raw (mapColumn h out col) = raw out.
Proof.
  intros h out [hd v]. unfold mapColumn.
  destruct (mapHeaderToKey (normalizeHeader h hd)) as [[k|name]|];
    [destruct k|..]; reflexivity.
Qed.

Lemma overdueFallback_raw : forall now out,
  raw (overdueFallback now out) = raw out.
Proof.
  intros now out. unfold overdueFallback.
  destruct (diasAtrasado out) as [[|x]|];
    destruct (dataLimiteProtocolo out) as [[|[[t|]]]|]; reflexivity.
Qed.

Lemma mapColumn_unresolved : forall h out col,
  unresolved h col = true -> mapColumn h out col = out.
Proof.
  intros h out [hd v] H. unfold unresolved in H. cbn [fst] in H.
  unfold mapColumn.
  destruct (mapHeaderToKey (normalizeHeader h hd)); [discriminate|reflexivity].
Qed.

(** X12.  The mapped record keeps the raw row it was built from, and a
    row none of whose headers resolves is mapped to the record that holds
    nothing but that row: unknown columns are ignored. *)
Theorem mapRow_raw : forall h now row,
  raw (mapRow h now row) = Some row /\
  (forallb (unresolved h) (Obj.entries row) = true ->
   mapRow h now row = newCliente row).
Proof.
  intros h now row. split.
  - unfold mapRow, mapColumns. rewrite overdueFallback_raw.
    apply (fold_left_invariant _ _ (fun c => raw c = Some row)).
    + reflexivity.
    + intros a x Ha. rewrite mapColumn_raw. exact Ha.
  - intros H. unfold mapRow, mapColumns.
    assert (E : fold_left (mapColumn h) (Obj.entries row) (newCliente row)
                = newCliente row).
    { generalize (newCliente row) as c.
      induction (Obj.entries row) as [|col cols IH]; intros c; [reflexivity|].
      simpl in H. apply andb_prop in H. destruct H as [Hc Hcs].
      simpl. rewrite (mapColumn_unresolved h c col Hc). apply IH. exact Hcs. }
    rewrite E. reflexivity.
Qed.

Lemma mapRow_raw_witness :
  forallb (unresolved utcHost)
    (Obj.entries [(js "Telefone", VStr (js "99")); (js "Obs", VStr (js "x"))])
  = true /\
  mapRow utcHost 0 [(js "Telefone", VStr (js "99")); (js "Obs", VStr (js "x"))]
  = newCliente [(js "Telefone", VStr (js "99")); (js "Obs", VStr (js "x"))].
Proof.
  split; [reflexivity|].
  destruct (mapRow_raw utcHost 0
              [(js "Telefone", VStr (js "99")); (js "Obs", VStr (js "x"))])
    as [_ H].
  apply H. reflexivity.
Defined.

Lemma coerceText_trimmed : forall h v,
  Str.trim (coerceText h v) = coerceText h v.
Proof.
  intros h v. unfold coerceText.
  destruct v; try reflexivity; apply trim_trim.
Qed.

Lemma mapRow_texts_trimmed : forall h now row,
  trimmed (nome (mapRow h now row)) /\
  trimmed (cpf (mapRow h now row)) /\
  trimmed (estado (mapRow h now row)) /\
  trimmed (cidade (mapRow h now row)) /\
  trimmed (responsavelFidelizacao (mapRow h now row)) /\
  trimmed (acoesInformadas (mapRow h now row)) /\
  trimmed (situacao (mapRow h now row)) /\
  trimmed (prazo20dias (mapRow h now row)) /\
  trimmed (responsavelCadastramento (mapRow h now row)).
Proof.
  intros h now row.
  set (Inv := fun c =>
         trimmed (nome c) /\ trimmed (cpf c) /\ trimmed (estado c) /\
         trimmed (cidade c) /\ trimmed (responsavelFidelizacao c) /\
         trimmed (acoesInformadas c) /\ trimmed (situacao c) /\
         trimmed (prazo20dias c) /\ trimmed (responsavelCadastramento c)).
  change (Inv (mapRow h now row)).
  assert (Hcols : Inv (mapColumns h row)).
  { unfold mapColumns. apply fold_left_invariant.
    - unfold Inv. simpl. tauto.
    - intros a [hd v] Ha. unfold Inv in *. unfold mapColumn.
      pose proof (coerceText_trimmed h v) as Ht.
      destruct (mapHeaderToKey (normalizeHeader h hd)) as [[k|name]|];
        [destruct k|..]; simpl; tauto. }
  unfold mapRow, overdueFallback.
  destruct (diasAtrasado (mapColumns h row)) as [[|x]|];
    destruct (dataLimiteProtocolo (mapColumns h row)) as [[|[[t|]]]|];
    exact Hcols.
Qed.

(** X13.  Every text field of a mapped record ([nome], [cpf], [estado],
    [cidade], the two responsibles, [acoesInformadas], [situacao],
    [prazo20dias]) is absent or trimmed: it has no white space at either
    end. *)
Theorem mapRow_text_trimmed : forall h now row,
  trimmed (nome (mapRow h now row)) /\
  trimmed (cpf (mapRow h now row)) /\
  trimmed (estado (mapRow h now row)) /\
  trimmed (cidade (mapRow h now row)) /\
  trimmed (responsavelFidelizacao (mapRow h now row)) /\
  trimmed (acoesInformadas (mapRow h now row)) /\
  trimmed (situacao (mapRow h now row)) /\
  trimmed (prazo20dias (mapRow h now row)) /\
  trimmed (responsavelCadastramento (mapRow h now row)).
Proof. exact mapRow_texts_trimmed. Qed.

(** X14.  For a mapped record the label of the city table is the city
    field itself, or ["Não informado"] when the field is absent or empty;
    it is never the empty text. *)
Theorem mapRow_cityLabel : forall h now row,
  cityLabel (mapRow h now row)
  = or_text (cidade (mapRow h now row)) NaoInformado /\
  cityLabel (mapRow h now row) <> [].
Proof.
  intros h now row.
  destruct (mapRow_texts_trimmed h now row) as [_ [_ [_ [Hc _]]]].
  assert (E : cityLabel (mapRow h now row)
              = or_text (cidade (mapRow h now row)) NaoInformado).
  { unfold cityLabel, or_text.
    destruct (cidade (mapRow h now row)) as [s|]; [|reflexivity].
    simpl in Hc. destruct (Num.nonempty s); [exact Hc|reflexivity]. }
  split; [exact E|]. rewrite E. unfold or_text.
  destruct (cidade (mapRow h now row)) as [s|]; [|discriminate].
  destruct s; simpl; discriminate.
Qed.

(** ** The overdue fallback, end to end *)

Lemma mapColumn_dataLimiteProtocolo : forall h out col,
  dataLimiteProtocolo (mapColumn h out col) =
  if resolves_to h K_dataLimiteProtocolo col then Some (parseDate h (snd col))
  else dataLimiteProtocolo out.
Proof.
  intros h out [hd v]. unfold mapColumn, resolves_to. cbn [fst snd].
  destruct (mapHeaderToKey (normalizeHeader h hd)) as [[k|name]|];
    [destruct k|..]; reflexivity.
Qed.

Lemma fold_mapColumn_dataLimiteProtocolo : forall h cols out,
  dataLimiteProtocolo (fold_left (mapColumn h) cols out) =
  match find (resolves_to h K_dataLimiteProtocolo) (rev cols) with
  | Some col => Some (parseDate h (snd col))
  | None => dataLimiteProtocolo out
  end.
Proof.
  intros h cols. induction cols as [|col cols IH] using rev_ind; intros out.
  - reflexivity.
  - rewrite fold_left_app, rev_app_distr. cbn [fold_left rev app find].
    rewrite mapColumn_dataLimiteProtocolo.
    destruct (resolves_to h K_dataLimiteProtocolo col); [reflexivity|apply IH].
Qed.

(** X15.  For a row without a column that resolves to [diasAtrasado], the
    overdue days of the mapped record come from the last column that
    resolves to [dataLimiteProtocolo]: the whole days from that date to
    [now], at least 0, when the cell parses to a valid date; 0 when it
    parses to the invalid Date; and the field stays absent when the cell
    parses to [null] or no such column exists.  Stated for a clock in
    [clock_range]. *)
Theorem mapRow_overdue_from_columns : forall h now row,
  clock_range now ->
  find (resolves_to h K_diasAtrasado) (rev (Obj.entries row)) = None ->
  diasAtrasado (mapRow h now row) =
  match find (resolves_to h K_dataLimiteProtocolo) (rev (Obj.entries row)) with
  | Some col =>
      match parseDate h (snd col) with
      | JVal d =>
          Some (JVal (Num.of_Z
                        match time_value d with
                        | Some t => Z.max 0 ((now - t) / DateAlg.msPerDay)
                        | None => 0
                        end))
      | JNull => None
      end
  | None => None
  end.
Proof.
  intros h now row _ Hd.
  assert (Ed : diasAtrasado (mapColumns h row) = None).
  { unfold mapColumns. rewrite fold_mapColumn_diasAtrasado, Hd. reflexivity. }
  assert (Ep : dataLimiteProtocolo (mapColumns h row)
               = match find (resolves_to h K_dataLimiteProtocolo)
                         (rev (Obj.entries row)) with
                 | Some col => Some (parseDate h (snd col))
                 | None => None
                 end).
  { unfold mapColumns. apply fold_mapColumn_dataLimiteProtocolo. }
  unfold mapRow, overdueFallback. rewrite Ed, Ep.
  destruct (find (resolves_to h K_dataLimiteProtocolo) (rev (Obj.entries row)))
    as [col|]; [|exact Ed].
  destruct (parseDate h (snd col)) as [|[[t|]]]; [exact Ed| |reflexivity].
  cbn [time_value diasAtrasado set_diasAtrasado].
  change (1000 * 60 * 60 * 24) with DateAlg.msPerDay.
  rewrite max0_div. reflexivity.
Qed.

Lemma mapRow_overdue_from_columns_witness :
  clock_range 1641427200000 /\
  find (resolves_to utcHost K_diasAtrasado)
    (rev (Obj.entries
            [(js "Nome", VStr (js "Ana"));
             (js "Data limite para protocolo", VStr (js "01/01/2022"))]))
  = None /\
  diasAtrasado
    (mapRow utcHost 1641427200000
       [(js "Nome", VStr (js "Ana"));
        (js "Data limite para protocolo", VStr (js "01/01/2022"))])
  = Some (JVal (Num.of_Z 5)).
Proof.
  assert (Hc : clock_range 1641427200000) by (unfold clock_range; lia).
  split; [exact Hc|]. split; [reflexivity|].
  rewrite (mapRow_overdue_from_columns utcHost 1641427200000
             [(js "Nome", VStr (js "Ana"));
              (js "Data limite para protocolo", VStr (js "01/01/2022"))]
             Hc eq_refl).
  reflexivity.
Defined.

(** X16.  The computed overdue days are 0 until a full day has passed
    since the deadline, and from the deadline on they grow by exactly one
    for every further day of [now].  Stated for clocks in [clock_range]
    and a deadline in [time_range]. *)
Theorem overdueFallback_days : forall now out t,
  clock_range now -> time_range t ->
  diasAtrasado out = None \/ diasAtrasado out = Some JNull ->
  dataLimiteProtocolo out = Some (JVal (mkDate (Some t))) ->
  (now < t + DateAlg.msPerDay ->
   diasAtrasado (overdueFallback now out) = Some (JVal (Num.of_Z 0))) /\
  (t <= now ->
   forall k, 0 <= k -> clock_range (now + k * DateAlg.msPerDay) ->
   exists n,
     0 <= n /\
     diasAtrasado (overdueFallback now out) = Some (JVal (Num.of_Z n)) /\
     diasAtrasado (overdueFallback (now + k * DateAlg.msPerDay) out)
     = Some (JVal (Num.of_Z (n + k)))).
Proof.
  intros now out t _ _ Hd Hp.
  assert (E : forall now',
            diasAtrasado (overdueFallback now' out)
            = Some (JVal (Num.of_Z (Z.max 0 ((now' - t) / DateAlg.msPerDay))))).
  { intros now'. unfold overdueFallback. rewrite Hp. cbn [time_value].
    change (1000 * 60 * 60 * 24) with DateAlg.msPerDay.
    destruct Hd as [Hd|Hd]; rewrite Hd; cbn [diasAtrasado set_diasAtrasado];
      rewrite max0_div; reflexivity. }
  split.
  - intros Hlt. rewrite E. do 3 f_equal.
    assert ((now - t) / DateAlg.msPerDay <= 0); [|lia].
    unfold DateAlg.msPerDay in *. Z.div_mod_to_equations. lia.
  - intros Hle k Hk _. exists ((now - t) / DateAlg.msPerDay).
    assert (Hq : 0 <= (now - t) / DateAlg.msPerDay).
    { apply Z.div_pos; [lia|reflexivity]. }
    split; [exact Hq|]. rewrite !E. split.
    + do 3 f_equal. lia.
    + do 3 f_equal.
      replace (now + k * DateAlg.msPerDay - t)
        with (now - t + k * DateAlg.msPerDay) by lia.
      rewrite Z.div_add by discriminate. lia.
Qed.

Lemma overdueFallback_days_witness :
  clock_range 150000000 /\ time_range 100000000 /\
  diasAtrasado
    (overdueFallback 150000000
       (set_dataLimiteProtocolo (JVal (mkDate (Some 100000000)))
          (newCliente [])))
  = Some (JVal (Num.of_Z 0)).
Proof.
  assert (Hc : clock_range 150000000) by (unfold clock_range; lia).
  assert (Ht : time_range 100000000) by (unfold time_range; lia).
  split; [exact Hc|]. split; [exact Ht|].
  destruct (overdueFallback_days 150000000
              (set_dataLimiteProtocolo (JVal (mkDate (Some 100000000)))
                 (newCliente []))
              100000000 Hc Ht (or_introl eq_refl) eq_refl) as [H _].
  apply H. reflexivity.
Defined.

(** X17.  The fallback is applied once: running it again, at any later
    time, on a record it has already processed changes nothing. *)
Theorem overdueFallback_idempotent : forall now now' out,
  overdueFallback now' (overdueFallback now out) = overdueFallback now out.
Proof.
  intros now now' out. unfold overdueFallback at 2.
  destruct (diasAtrasado out) as [[|x]|] eqn:Ed;
    destruct (dataLimiteProtocolo out) as [[|[[t|]]]|] eqn:Ep;
    unfold overdueFallback;
    cbn [diasAtrasado dataLimiteProtocolo set_diasAtrasado];
    rewrite ?Ed, ?Ep; reflexivity.
Qed.

(** ** Totals and rows of the frequency tables *)

Lemma sort_insert_perm : forall (A : Type) (cmp : A -> A -> Z) x l,
  Permutation (sort_insert cmp x l) (x :: l).
Proof.
  intros A cmp x l. induction l as [|y l IH]; simpl; [apply Permutation_refl|].
  destruct (cmp x y <=? 0); [apply Permutation_refl|].
  apply Permutation_trans with (y :: x :: l).
  - apply perm_skip. exact IH.
  - apply perm_swap.
Qed.

Lemma Array_sort_perm : forall (A : Type) (cmp : A -> A -> Z) l,
  Permutation (Array_sort cmp l) l.
Proof.
  intros A cmp l. induction l as [|x l IH]; simpl; [apply perm_nil|].
  apply Permutation_trans with (x :: Array_sort cmp l).
  - apply sort_insert_perm.
  - apply perm_skip. exact IH.
Qed.

Lemma filter_split_perm : forall (A : Type) (p : A -> bool) l,
  Permutation (filter p l ++ filter (fun x => negb (p x)) l) l.
Proof.
  intros A p l. induction l as [|x l IH]; simpl; [apply perm_nil|].
  destruct (p x); simpl.
  - apply perm_skip. exact IH.
  - apply Permutation_sym.
    apply Permutation_trans
      with (x :: filter p l ++ filter (fun x => negb (p x)) l).
    + apply perm_skip. apply Permutation_sym. exact IH.
    + apply Permutation_middle.
Qed.

(** [Object.entries] lists every own property once. *)
Lemma entries_perm : forall (V : Type) (o : Obj.t V),
  Permutation (Obj.entries o) o.
Proof.
  intros V o. unfold Obj.entries.
  apply Permutation_trans
    with (filter (fun e => Obj.is_index (fst e)) o
          ++ filter (fun e => negb (Obj.is_index (fst e))) o).
  - apply Permutation_app_tail. apply Array_sort_perm.
  - apply filter_split_perm.
Qed.

Lemma table_total_perm : forall a b,
  Permutation a b -> table_total a = table_total b.
Proof.
  intros a b H. induction H; simpl; lia.
Qed.

Lemma table_total_app : forall a b,
  table_total (a ++ b) = table_total a + table_total b.
Proof.
  intros a b. induction a as [|e a IH]; simpl; lia.
Qed.

Lemma table_total_replace : forall o k v v0,
  Obj.own o k = Some v0 ->
  table_total (Obj.replace o k v) = table_total o - count_of v0 + count_of v.
Proof.
  intros o k v v0. induction o as [|e o IH]; intros H; [discriminate|].
  rewrite own_cons in H. cbn [Obj.replace].
  destruct (Str.eqb (fst e) k).
  - inversion H; subst v0. simpl. lia.
  - simpl. rewrite (IH H). lia.
Qed.

Lemma numeric_own : forall o k v,
  Forall numeric o -> Obj.own o k = Some v -> exists n, v = Count n.
Proof.
  intros o k v HF Ho. apply own_In in Ho. rewrite Forall_forall in HF.
  destruct (HF _ Ho) as [n Hn]. exists n. exact Hn.
Qed.

Lemma Forall_replace : forall (P : jsstring * CountVal -> Prop) o k v,
  Forall P o -> P (k, v) -> Forall P (Obj.replace o k v).
Proof.
  intros P o k v HF Hv. induction HF as [|e o He Ho IH]; simpl; [constructor|].
  destruct (Str.eqb (fst e) k); constructor; assumption.
Qed.

(** One [bump] with a plain label on a numeric table keeps the table
    numeric and adds one to its total. *)
Lemma bump_total : forall acc k,
  Obj.inherited k = false -> Forall numeric acc ->
  Forall numeric (bump acc k) /\ table_total (bump acc k) = table_total acc + 1.
Proof.
  intros acc k Hk HF.
  assert (Hproto : Str.eqb k (js "__proto__") = false).
  { apply Str_eqb_neq. intros E. subst k. discriminate Hk. }
  destruct (Obj.own acc k) as [v|] eqn:Eo.
  - destruct (numeric_own acc k v HF Eo) as [n Hn]. subst v.
    unfold bump, Obj.get. rewrite Eo. unfold Obj.set. rewrite Eo. split.
    + apply Forall_replace; [exact HF|]. eexists. reflexivity.
    + rewrite (table_total_replace acc k _ (Count n) Eo). simpl.
      destruct (Z.eqb_spec n 0); lia.
  - unfold bump, Obj.get. rewrite Eo, Hk. unfold Obj.set.
    rewrite Eo, Hproto. split.
    + apply Forall_app. split; [exact HF|].
      constructor; [exists 1; reflexivity|constructor].
    + rewrite table_total_app. simpl. lia.
Qed.

Lemma fold_bump_total : forall labels acc,
  plain_labels labels -> Forall numeric acc ->
  table_total (fold_left bump labels acc)
  = table_total acc + Z.of_nat (length labels).
Proof.
  induction labels as [|l labels IH]; intros acc Hp HF.
  - simpl. lia.
  - inversion Hp; subst. cbn [fold_left length].
    destruct (bump_total acc l) as [HF' Ht]; [assumption..|].
    rewrite IH by assumption. rewrite Ht. lia.
Qed.

(** X18.  When no pendency label is the name of a member of
    [Object.prototype], the counts of the pendency table add up to the
    number of pendency entries of all records, in the counter object as in
    the sorted array. *)
Theorem pendencias_total : forall clientes,
  plain_labels (map pendenciaLabel (pendenciasFlat clientes)) ->
  table_total (pendenciasCount clientes)
  = Z.of_nat (length (pendenciasFlat clientes)) /\
  table_total (pendenciasArray clientes)
  = Z.of_nat (length (pendenciasFlat clientes)).
Proof.
  intros clientes Hp.
  assert (E : table_total (pendenciasCount clientes)
              = Z.of_nat (length (pendenciasFlat clientes))).
  { unfold pendenciasCount. rewrite (fold_left_bump_map _ pendenciaLabel).
    rewrite fold_bump_total by (assumption || constructor).
    rewrite length_map. reflexivity. }
  split; [exact E|]. rewrite <- E. apply table_total_perm.
  unfold pendenciasArray.
  apply Permutation_trans with (Obj.entries (pendenciasCount clientes)).
  - apply Array_sort_perm.
  - apply entries_perm.
Qed.

Lemma pendencias_total_witness :
  plain_labels
    (map pendenciaLabel
       (pendenciasFlat
          [set_pendencias [js "RG"; js "CPF"] (newCliente []);
           set_pendencias [js "CPF"] (newCliente [])])) /\
  table_total
    (pendenciasArray
       [set_pendencias [js "RG"; js "CPF"] (newCliente []);
        set_pendencias [js "CPF"] (newCliente [])])
  = 3.
Proof.
  assert (H : plain_labels
                (map pendenciaLabel
                   (pendenciasFlat
                      [set_pendencias [js "RG"; js "CPF"] (newCliente []);
                       set_pendencias [js "CPF"] (newCliente [])]))).
  { repeat constructor. }
  split; [exact H|].
  destruct (pendencias_total _ H) as [_ E]. rewrite E. reflexivity.
Defined.

(** X19.  When no pendency label is the name of a member of
    [Object.prototype], the pendency array has one row for every distinct
    label, with the number of its occurrences, and the rows are sorted
    with counts non-increasing, rows of equal count keeping the
    enumeration order of the counter object. *)
Theorem pendenciasArray_rows : forall clientes,
  plain_labels (map pendenciaLabel (pendenciasFlat clientes)) ->
  (forall k v,
     In (k, v) (pendenciasArray clientes)
     <-> In k (map pendenciaLabel (pendenciasFlat clientes))
         /\ v = Count (occurrences k
                         (map pendenciaLabel (pendenciasFlat clientes)))) /\
  NoDup (map fst (pendenciasArray clientes)) /\
  StronglySorted (fun a b => count_of (snd b) <= count_of (snd a))
                 (pendenciasArray clientes) /\
  (forall n,
     filter (fun e => count_of (snd e) =? n) (pendenciasArray clientes)
     = filter (fun e => count_of (snd e) =? n)
              (Obj.entries (pendenciasCount clientes))).
Proof.
  intros clientes Hp.
  set (labels := map pendenciaLabel (pendenciasFlat clientes)) in *.
  assert (Hc : pendenciasCount clientes = fold_left bump labels []).
  { unfold pendenciasCount. apply fold_left_bump_map. }
  assert (Hnum : Forall numeric (Obj.entries (pendenciasCount clientes))).
  { apply Forall_forall. intros e He.
    apply (proj1 (entries_In _ _ _)) in He. rewrite Hc in He.
    pose proof (fold_bump_numeric labels Hp) as HF.
    rewrite Forall_forall in HF. apply HF. exact He. }
  split; [|split; [|split]].
  - intros k v. unfold pendenciasArray. rewrite Array_sort_In, entries_In, Hc.
    apply fold_bump_table. exact Hp.
  - apply (Permutation_NoDup (l := map fst (pendenciasCount clientes))).
    + apply Permutation_map. apply Permutation_sym. unfold pendenciasArray.
      apply Permutation_trans with (Obj.entries (pendenciasCount clientes));
        [apply Array_sort_perm|apply entries_perm].
    + rewrite Hc. apply NoDup_fold_bump. constructor.
  - apply StronglySorted_weaken with (R := fun a b => rank a <= rank b).
    + intros a b. unfold rank. lia.
    + apply (Array_sort_sorted byValueDesc rank numeric byValueDesc_rank).
      exact Hnum.
  - intros n. unfold pendenciasArray.
    pose proof (Array_sort_stable byValueDesc rank numeric byValueDesc_rank
                  (- n) _ Hnum) as Hst.
    assert (Hext : forall l : list (jsstring * CountVal),
              filter (fun e => rank e =? - n) l
              = filter (fun e => count_of (snd e) =? n) l).
    { intros l. apply filter_ext. intros e. unfold rank.
      destruct (Z.eqb_spec (count_of (snd e)) n),
               (Z.eqb_spec (- count_of (snd e)) (- n));
        try reflexivity; lia. }
    rewrite <- !Hext. exact Hst.
Qed.

Lemma pendenciasArray_rows_witness :
  plain_labels
    (map pendenciaLabel
       (pendenciasFlat
          [set_pendencias [js "RG"; js "CPF"] (newCliente []);
           set_pendencias [js "CPF"] (newCliente [])])) /\
  In (js "CPF", Count 2)
     (pendenciasArray
        [set_pendencias [js "RG"; js "CPF"] (newCliente []);
         set_pendencias [js "CPF"] (newCliente [])]).
Proof.
  assert (H : plain_labels
                (map pendenciaLabel
                   (pendenciasFlat
                      [set_pendencias [js "RG"; js "CPF"] (newCliente []);
                       set_pendencias [js "CPF"] (newCliente [])]))).
  { repeat constructor. }
  split; [exact H|].
  destruct (pendenciasArray_rows _ H) as [Hin _].
  apply Hin. split; [right; left; reflexivity|reflexivity].
Defined.

Lemma table_total_firstn : forall n l,
  Forall (fun e => 0 <= count_of (snd e)) l ->
  table_total (firstn n l) <= table_total l.
Proof.
  intros n l H. revert n. induction H as [|e l He Hl IH]; intros [|n]; simpl.
  - lia.
  - lia.
  - assert (0 <= table_total l); [|lia].
    clear IH. induction Hl; simpl; lia.
  - specialize (IH n). lia.
Qed.

(** X20.  When no city label is the name of a member of
    [Object.prototype], every record is counted once in the city table:
    the counts add up to the number of records.  The ten rows kept by
    [topCities] add up to at most that number, and to exactly that number
    when there are at most ten distinct labels. *)
Theorem cities_total : forall clientes,
  plain_labels (map cityLabel clientes) ->
  table_total (cityCount clientes) = Z.of_nat (length clientes) /\
  table_total (topCities clientes) <= Z.of_nat (length clientes) /\
  ((length (cityCount clientes) <= 10)%nat ->
   table_total (topCities clientes) = Z.of_nat (length clientes)).
Proof.
  intros clientes Hp.
  assert (E : table_total (cityCount clientes) = Z.of_nat (length clientes)).
  { rewrite cityCount_fold.
    rewrite fold_bump_total by (assumption || constructor).
    rewrite length_map. reflexivity. }
  assert (Hperm : Permutation (citiesSorted clientes) (cityCount clientes)).
  { unfold citiesSorted.
    apply Permutation_trans with (Obj.entries (cityCount clientes));
      [apply Array_sort_perm|apply entries_perm]. }
  assert (Es : table_total (citiesSorted clientes)
               = Z.of_nat (length clientes)).
  { rewrite <- E. apply table_total_perm. exact Hperm. }
  split; [exact E|]. split.
  - rewrite <- Es. apply table_total_firstn.
    apply Forall_forall. intros [k v] Hin.
    apply (Permutation_in _ Hperm) in Hin. rewrite cityCount_fold in Hin.
    apply (fold_bump_table _ k v Hp) in Hin. destruct Hin as [_ Hv].
    subst v. simpl. apply occurrences_nonneg.
  - intros Hlen. rewrite <- Es. f_equal. apply firstn_all2.
    fold (citiesSorted clientes).
    rewrite (Permutation_length Hperm). exact Hlen.
Qed.

Lemma cities_total_witness :
  plain_labels
    (map cityLabel
       [set_cidade (js "Olinda") (newCliente []);
        set_cidade (js "Recife") (newCliente []);
        newCliente []]) /\
  table_total
    (topCities
       [set_cidade (js "Olinda") (newCliente []);
        set_cidade (js "Recife") (newCliente []);
        newCliente []])
  = 3.
Proof.
  assert (H : plain_labels
                (map cityLabel
                   [set_cidade (js "Olinda") (newCliente []);
                    set_cidade (js "Recife") (newCliente []);
                    newCliente []])).
  { repeat constructor. }
  split; [exact H|].
  destruct (cities_total _ H) as [_ [_ E]].
  rewrite E; [reflexivity|]. vm_compute. lia.
Defined.

(** ** The table of responsibles *)

Lemma respCount_fold : forall clientes,
  respCount clientes = fold_left bump (map respLabel clientes) [].
Proof. intros clientes. apply fold_left_bump_map. Qed.

(** X21.  When no responsible label is the name of a member of
    [Object.prototype], the table of responsibles has one row per
    distinct label with the number of records of that label, its totals
    add up to the number of records, and, not being sorted, it lists the
    labels in the enumeration order of the counter object (first-seen
    order when no label is an array index). *)
Theorem respArray_rows : forall clientes,
  plain_labels (map respLabel clientes) ->
  (forall k v,
     In (k, v) (respArray clientes)
     <-> In k (map respLabel clientes)
         /\ v = Count (occurrences k (map respLabel clientes))) /\
  NoDup (map fst (respArray clientes)) /\
  table_total (respArray clientes) = Z.of_nat (length clientes) /\
  (Forall (fun k => Obj.is_index k = false) (map respLabel clientes) ->
   map fst (respArray clientes) = first_seen (map respLabel clientes)).
Proof.
  intros clientes Hp.
  set (labels := map respLabel clientes) in *.
  assert (Hc : respCount clientes = fold_left bump labels [])
    by apply respCount_fold.
  assert (Hnd : NoDup (map fst (respCount clientes))).
  { rewrite Hc. apply NoDup_fold_bump. constructor. }
  assert (Hkeys : map fst (respCount clientes) = first_seen labels).
  { rewrite Hc. apply (map_fst_fold_bump labels [] Hp). }
  unfold respArray. split; [|split; [|split]].
  - intros k v. rewrite entries_In, Hc. apply fold_bump_table. exact Hp.
  - apply (Permutation_NoDup (l := map fst (respCount clientes)));
      [|exact Hnd].
    apply Permutation_map, Permutation_sym, entries_perm.
  - rewrite (table_total_perm _ _ (entries_perm _ (respCount clientes))).
    rewrite Hc, fold_bump_total by (assumption || constructor).
    unfold labels. rewrite length_map. reflexivity.
  - intros Hni. unfold Obj.entries.
    assert (Hall : forall e, In e (respCount clientes) ->
                             Obj.is_index (fst e) = false).
    { intros e He. rewrite Forall_forall in Hni. apply Hni.
      destruct (fold_bump_keys labels [] (fst e)) as [[]|H]; [|exact H].
      rewrite <- Hc. apply in_map. exact He. }
    rewrite (filter_none _ (fun e => Obj.is_index (fst e)) _ Hall).
    cbn [Array_sort fold_right app]. rewrite <- Hkeys. f_equal.
    apply forallb_filter_id. apply forallb_forall.
    intros e He. rewrite (Hall e He). reflexivity.
Qed.

Lemma respArray_rows_witness :
  plain_labels
    (map respLabel
       [set_responsavelFidelizacao (js "Bia") (newCliente []);
        set_responsavelCadastramento (js "Ana")
          (set_responsavelFidelizacao (js "Bia") (newCliente []));
        newCliente []]) /\
  map fst
    (respArray
       [set_responsavelFidelizacao (js "Bia") (newCliente []);
        set_responsavelCadastramento (js "Ana")
          (set_responsavelFidelizacao (js "Bia") (newCliente []));
        newCliente []])
  = [js "Bia"; js "Ana"; NaoInformado].
Proof.
  assert (H : plain_labels
                (map respLabel
                   [set_responsavelFidelizacao (js "Bia") (newCliente []);
                    set_responsavelCadastramento (js "Ana")
                      (set_responsavelFidelizacao (js "Bia") (newCliente []));
                    newCliente []])).
  { repeat constructor. }
  split; [exact H|].
  destruct (respArray_rows _ H) as [_ [_ [_ E]]].
  rewrite E; [reflexivity|]. repeat constructor.
Defined.

(** X22.  For a mapped record the label of the table of responsibles is
    the registration responsible when that field is present and not empty,
    else the fidelization responsible when that one is, else
    ["Não informado"]; it is never the empty text. *)
Theorem mapRow_respLabel : forall h now row,
  respLabel (mapRow h now row)
  = or_text (responsavelCadastramento (mapRow h now row))
      (or_text (responsavelFidelizacao (mapRow h now row)) NaoInformado) /\
  respLabel (mapRow h now row) <> [].
Proof.
  intros h now row.
  destruct (mapRow_texts_trimmed h now row)
    as [_ [_ [_ [_ [Hf [_ [_ [_ Hc]]]]]]]].
  set (c := mapRow h now row) in *.
  assert (E : respLabel c
              = or_text (responsavelCadastramento c)
                  (or_text (responsavelFidelizacao c) NaoInformado)).
  { unfold respLabel, or_text.
    destruct (responsavelCadastramento c) as [s|]; simpl in Hc.
    - destruct (Num.nonempty s); [exact Hc|].
      destruct (responsavelFidelizacao c) as [s'|]; simpl in Hf;
        [|reflexivity].
      destruct (Num.nonempty s'); [exact Hf|reflexivity].
    - destruct (responsavelFidelizacao c) as [s'|]; simpl in Hf;
        [|reflexivity].
      destruct (Num.nonempty s'); [exact Hf|reflexivity]. }
  split; [exact E|]. rewrite E. unfold or_text.
  destruct (responsavelCadastramento c) as [[|x s]|];
    destruct (responsavelFidelizacao c) as [[|y s']|]; simpl; discriminate.
Qed.
